(** * class-action: a shallow embedding of [src/class-action.ts]

    The class [ClassAction] is modelled over an explicit store: instances
    and arrays live in the store and are named by references, so that the
    aliasing the JavaScript code relies on ([this.reactions] returned as
    is by [getReactions], a new array built by [flat()], the live array
    iterator of [for ... of]) is visible in the statements.

    Conventions of the model:
    - the own property [reactions] of an instance, and the own static
      property [reactions] of a class, hold an array when they exist (the
      declared type [ClassAction<any>[]]); an absent property is [None];
    - the elements of an array are instance references; a reference that
      names no instance of the store stands for a value that is not an
      instance, and calling a method on it raises [TypeError];
    - only [doAction] is overridden by subclasses; the other methods are
      the ones of [ClassAction];
    - the array literal [[result, this.getReactions(context)]] is consumed
      by [flat()] at once and is not given a place in the store;
    - [act] may recurse for ever on a cyclic reaction graph, so [act],
      [doReactions] and the loop take fuel and answer [None] when it runs
      out. *)

From stdpp Require Import gmap list.
From Stdlib Require Import ZArith Lia.

Open Scope Z_scope.
Open Scope nat_scope.

(** ** References and classes *)

(** An instance reference and an array reference are positions in the store. *)
Definition ref := nat.
Definition aref := nat.

(** A class is named by its inheritance path: [[]] is [ClassAction]
    itself and [n :: super] is [class n extends super]. The path is the
    prototype chain of the constructor function. *)
Definition classid := list nat.

Definition ClassAction : classid := [].

(** What a [throw] carries. [TypeError] is raised by the engine (a method
    called on something that is not an instance, iterating something that
    is not an array); [Raised] is whatever an overridden [doAction] throws. *)
Inductive exn : Type :=
  | TypeError
  | Raised (code : nat).

(** An instance: [this.constructor] and the own property [reactions]
    ([None] when [this.hasOwnProperty('reactions')] is false). *)
Record object : Type := mkObject {
  constructor_ : classid;
  own_reactions : option aref
}.

(** ** Array primitives used by the source (ECMAScript semantics) *)

(** [Array.prototype.indexOf]: position of the first element strictly
    equal to [x], or [-1]. *)
Fixpoint indexOf (l : list ref) (x : ref) : Z :=
  match l with
  | [] => (-1)%Z
  | y :: l' =>
      if decide (y = x) then 0%Z
      else let k := indexOf l' x in
           if (k <? 0)%Z then (-1)%Z else (k + 1)%Z
  end.

(** [Array.prototype.splice(start, deleteCount)] with no inserted items:
    a negative [start] counts from the end, and both are clamped to the
    array. The value is the array as it is after the call. *)
Definition splice (l : list ref) (start deleteCount : Z) : list ref :=
  let len := Z.of_nat (length l) in
  let actualStart :=
    if (start <? 0)%Z then Z.max (len + start) 0 else Z.min start len in
  let actualDeleteCount := Z.min (Z.max deleteCount 0) (len - actualStart) in
  take (Z.to_nat actualStart) l
    ++ drop (Z.to_nat (actualStart + actualDeleteCount)) l.

(** [Array.prototype.push(...items)]. *)
Definition push (l items : list ref) : list ref := l ++ items.

(** [[a, b].flat()] on arrays whose elements are instances. *)
Definition flat (ls : list (list ref)) : list ref := concat ls.

(** ** The store *)

Section Store.
Context {U : Type}.

(** [statics] is the own static property [reactions] of each class,
    [objs] the instances, [arrays] the arrays, [user] everything the
    overriding code keeps for itself (a counter, the context's fields). *)
Record state : Type := mkState {
  statics : gmap classid aref;
  objs : list object;
  arrays : list (list ref);
  user : U
}.

(** A completion: normal with a value, or abrupt with what was thrown.
    Both carry the store as it is at that point. *)
Inductive result (A : Type) : Type :=
  | Ok (a : A) (s : state)
  | Throw (e : exn) (s : state).
Global Arguments Ok {A} a s.
Global Arguments Throw {A} e s.

Definition state_of {A} (r : result A) : state :=
  match r with Ok _ s => s | Throw _ s => s end.

Definition M (A : Type) : Type := state -> result A.

Definition ret {A} (a : A) : M A := fun s => Ok a s.

Definition bind {A B} (m : M A) (k : A -> M B) : M B :=
  fun s => match m s with
           | Ok a s' => k a s'
           | Throw e s' => Throw e s'
           end.

Definition throw {A} (e : exn) : M A := fun s => Throw e s.

Definition set_objs (s : state) (os : list object) : state :=
  mkState (statics s) os (arrays s) (user s).
Definition set_arrays (s : state) (ars : list (list ref)) : state :=
  mkState (statics s) (objs s) ars (user s).
Definition set_user (s : state) (u : U) : state :=
  mkState (statics s) (objs s) (arrays s) u.

(** A new array holding [l]. *)
Definition alloc_array (l : list ref) : M aref :=
  fun s => Ok (length (arrays s)) (set_arrays s (arrays s ++ [l])).

Definition read_array (a : aref) : M (list ref) :=
  fun s => match arrays s !! a with
           | Some l => Ok l s
           | None => Throw TypeError s
           end.

Definition write_array (a : aref) (l : list ref) : M unit :=
  fun s => Ok tt (set_arrays s (<[a := l]> (arrays s))).

Definition get_object (this : ref) : M object :=
  fun s => match objs s !! this with
           | Some o => Ok o s
           | None => Throw TypeError s
           end.

(** [this.reactions = a]. *)
Definition set_own_reactions (this : ref) (a : aref) : M unit :=
  fun s => match objs s !! this with
           | Some o =>
               Ok tt (set_objs s (<[this := mkObject (constructor_ o) (Some a)]> (objs s)))
           | None => Throw TypeError s
           end.
End Store.

Global Arguments state : clear implicits.
Global Arguments result : clear implicits.
Global Arguments M : clear implicits.

Notation "x <- m ;; k" := (bind m (fun x => k))
  (at level 100, m at next level, right associativity).
Notation "m ;;; k" := (bind m (fun _ => k))
  (at level 100, right associativity).

(** ** The methods of [ClassAction] *)

Section Methods.
Context {U C : Type}.

(** [constructor(...reactions)]: the rest parameter is a new array at
    each call; it enters the store where the code keeps it. *)
Definition constructor (this : ref) (reactions : list ref) : M U unit :=
  if negb (length reactions =? 0) then
    o <- get_object this ;;
    match own_reactions o with
    | None => a <- alloc_array reactions ;; set_own_reactions this a
    | Some a => l <- read_array a ;; write_array a (push l reactions)
    end
  else ret tt.

(** [new c(...reactions)] for a class [c] that has no constructor and no
    field initialiser of its own. *)
Definition new (c : classid) (reactions : list ref) : M U ref :=
  fun s =>
    let this := length (objs s) in
    (constructor this reactions ;;; ret this)
      (set_objs s (objs s ++ [mkObject c None])).



(** [this.reactions] on a constructor function: the property is looked
    up on the class and then along its prototype chain. *)
Fixpoint lookup_static (st : gmap classid aref) (c : classid) : option aref :=
  match c with
  | [] => st !! ClassAction
  | n :: super =>
      match st !! (n :: super) with
      | Some a => Some a
      | None => lookup_static st super
      end
  end.

(** [static getReactions(context) { return this.reactions || [] }] *)
Definition static_getReactions (cls : classid) (context : C) : M U aref :=
  fun s => match lookup_static (statics s) cls with
           | Some a => Ok a s
           | None => alloc_array [] s
           end.

(** [getReactions(context)] *)
Definition getReactions (this : ref) (context : C) : M U aref :=
  o <- get_object this ;;
  match own_reactions o with
  | None => alloc_array []
  | Some a => ret a
  end.

(** [getAllReactions(context)]: the static accessor is reached through
    [this.constructor]. *)
Definition getAllReactions (this : ref) (context : C) : M U aref :=
  o <- get_object this ;;
  result <- static_getReactions (constructor_ o) context ;;
  inst <- getReactions this context ;;
  l1 <- read_array result ;;
  l2 <- read_array inst ;;
  alloc_array (flat [l1; l2]).

(** [addReactions(...reactions)] *)
Definition addReactions (this : ref) (reactions : list ref) : M U unit :=
  o <- get_object this ;;
  match own_reactions o with
  | None => a <- alloc_array [] ;; set_own_reactions this a
  | Some _ => ret tt
  end ;;;
  o' <- get_object this ;;
  match own_reactions o' with
  | None => throw TypeError
  | Some a => l <- read_array a ;; write_array a (push l reactions)
  end.

(** [removeReaction(reaction)] *)
Definition removeReaction (this : ref) (reaction : ref) : M U unit :=
  o <- get_object this ;;
  match own_reactions o with
  | None => ret tt
  | Some a =>
      l <- read_array a ;;
      write_array a (splice l (indexOf l reaction) 1)
  end.
End Methods.

(** ** Propagation: [doAction], [doReactions], [act] *)

(** The body of a [doAction] override: it receives [this] and the context
    and may do anything to the store. Its return value is dropped by every
    caller in the source. *)
Definition behaviour (U C : Type) : Type := ref -> C -> M U unit.

Section Propagation.
Context {U C : Type}.

(** The [doAction] overrides of the subclasses. [ClassAction] itself
    keeps the empty body of the source. *)
Variable overrides : classid -> option (behaviour U C).

(** [doAction(context) { }] of [ClassAction]. *)
Definition base_doAction : behaviour U C := fun _ _ => ret tt.

(** Method resolution of [doAction] along the prototype chain. *)
Fixpoint resolve_doAction (c : classid) : behaviour U C :=
  match c with
  | [] => base_doAction
  | n :: super =>
      match overrides (n :: super) with
      | Some b => b
      | None => resolve_doAction super
      end
  end.

(** The call [this.doAction(context)]. *)
Definition doAction (this : ref) (context : C) : M U unit :=
  o <- get_object this ;;
  resolve_doAction (constructor_ o) this context.

(** [for (let reaction of a) body(reaction)]: the array iterator keeps
    the array reference and an index, and reads the length and the
    element from the array as it is at each step. [None] is "out of
    fuel". *)
Fixpoint for_of (fuel : nat) (body : ref -> state U -> option (result U unit))
    (a : aref) (i : nat) (s : state U) : option (result U unit) :=
  match fuel with
  | 0 => None
  | S n =>
      match arrays s !! a with
      | None => Some (Throw TypeError s)
      | Some l =>
          match l !! i with
          | None => Some (Ok tt s)
          | Some reaction =>
              match body reaction s with
              | Some (Ok _ s') => for_of n body a (S i) s'
              | Some (Throw e s') => Some (Throw e s')
              | None => None
              end
          end
      end
  end.

(** [doReactions(context)], given what [reaction.act] does. *)
Definition doReactions_with
    (act_ : ref -> C -> state U -> option (result U unit))
    (fuel : nat) (this : ref) (context : C) (s : state U)
    : option (result U unit) :=
  match getAllReactions this context s with
  | Ok a s1 => for_of fuel (fun reaction => act_ reaction context) a 0 s1
  | Throw e s1 => Some (Throw e s1)
  end.

(** [act(context) { this.doAction(context); this.doReactions(context) }].
    The reaction graph may be cyclic, so the recursion is bounded by
    [fuel]. *)
Fixpoint act (fuel : nat) (this : ref) (context : C) (s : state U)
    : option (result U unit) :=
  match fuel with
  | 0 => None
  | S n =>
      match doAction this context s with
      | Ok _ s1 => doReactions_with (act n) n this context s1
      | Throw e s1 => Some (Throw e s1)
      end
  end.

Definition doReactions (fuel : nat) (this : ref) (context : C)
    : state U -> option (result U unit) :=
  doReactions_with (act fuel) fuel this context.

(** *** Specification-side definitions *)

(** Invoking [body] on each element of a list fixed beforehand, in
    order, stopping at the first abrupt completion. *)
Fixpoint act_each (body : ref -> state U -> option (result U unit))
    (l : list ref) (s : state U) : option (result U unit) :=
  match l with
  | [] => Some (Ok tt s)
  | reaction :: l' =>
      match body reaction s with
      | Some (Ok _ s') => act_each body l' s'
      | Some (Throw e s') => Some (Throw e s')
      | None => None
      end
  end.
End Propagation.

(** ** What the accessors denote

    The contents of the sequences the accessors answer with, read off the
    store without changing it. They are used to state the properties; the
    methods above are the code. *)

Section Views.
Context {U : Type}.

(** The type-level sequence seen from class [c]. *)
Definition class_list (s : state U) (c : classid) : option (list ref) :=
  match lookup_static (statics s) c with
  | Some a => arrays s !! a
  | None => Some []
  end.

(** The own sequence of instance [this]. *)
Definition instance_list (s : state U) (this : ref) : option (list ref) :=
  match objs s !! this with
  | Some o =>
      match own_reactions o with
      | Some a => arrays s !! a
      | None => Some []
      end
  | None => None
  end.

(** Type-level sequence of the instance's class, then its own sequence. *)
Definition all_list (s : state U) (this : ref) : option (list ref) :=
  match objs s !! this with
  | Some o =>
      match class_list s (constructor_ o), instance_list s this with
      | Some lc, Some li => Some (lc ++ li)
      | _, _ => None
      end
  | None => None
  end.

(** [s'] is [s] with new arrays; instances, classes and the arrays of
    [s] are as they were. *)
Definition extends (s s' : state U) : Prop :=
  statics s' = statics s /\ objs s' = objs s
  /\ exists new, arrays s' = arrays s ++ new.

(** No dangling array reference: what an instance or a class holds as
    [reactions] is an array of the store. *)
Definition wf (s : state U) : Prop :=
  (forall r o a,
      objs s !! r = Some o -> own_reactions o = Some a ->
      a < length (arrays s))
  /\ (forall c a, statics s !! c = Some a -> a < length (arrays s)).

(** [wf], computed. *)
Definition wf_check (s : state U) : bool :=
  forallb (fun o => match own_reactions o with
                    | Some a => a <? length (arrays s)
                    | None => true
                    end) (objs s)
  && bool_decide (map_Forall (fun _ a => a < length (arrays s)) (statics s)).

(** An array that exists and that no instance and no class holds: only
    the code that created it can reach it. *)
Definition private (a : aref) (s : state U) : Prop :=
  a < length (arrays s)
  /\ (forall r o, objs s !! r = Some o -> own_reactions o <> Some a)
  /\ (forall c, statics s !! c <> Some a).

(** Going from [s] to [s'] keeps the store well formed and leaves the
    private arrays of [s] private and as they were. *)
Definition stable (s s' : state U) : Prop :=
  wf s'
  /\ forall a, private a s ->
       private a s' /\ arrays s' !! a = arrays s !! a.

(** An override that leaves alone the arrays it cannot reach: it may
    change instances, classes, the arrays they hold and its own data. *)
Definition frames {C : Type} (b : ref -> C -> M U unit) : Prop :=
  forall this context s,
    wf s -> stable s (state_of (b this context s)).

(** What a mutator called on [this] may change: the array that [this]
    holds, and [this] itself when it gets its first own array. The
    classes, the data of the overriding code, the other instances and
    every other array of the store are as they were. *)
Definition touches_only (this : ref) (s s' : state U) : Prop :=
  statics s' = statics s
  /\ user s' = user s
  /\ length (objs s') = length (objs s)
  /\ (forall x ox,
        objs s !! x = Some ox ->
        x <> this \/ is_Some (own_reactions ox) ->
        objs s' !! x = Some ox)
  /\ (forall a l,
        arrays s !! a = Some l ->
        (forall o, objs s !! this = Some o -> own_reactions o <> Some a) ->
        arrays s' !! a = Some l).

(** A loop body that keeps the store well formed and the private arrays
    as they are. *)
Definition body_stable (body : ref -> state U -> option (result U unit)) : Prop :=
  forall r s res, wf s -> body r s = Some res -> stable s (state_of res).
End Views.

(** ** Scenarios of the test suite *)

Module Fixtures.
(** Nothing allocated, counter at 0. *)
Definition s0 : state nat := mkState ∅ [] [] 0.

(** [reaction1 = new ClassAction(), reaction2 = new ClassAction();
    classAction = new ClassAction(reaction1, reaction2)]:
    the instances are 0, 1 and 2, and array 0 is [classAction.reactions]. *)
Definition s_two : state nat :=
  state_of ((r1 <- new ClassAction [] ;;
             r2 <- new ClassAction [] ;;
             new ClassAction [r1; r2]) s0).



(** [class A extends ClassAction { static reactions = [reaction1, reaction2] }]
    and [class B extends A {}]. *)
Definition A : classid := [1].
Definition B : classid := [2; 1].
Definition s_static : state nat :=
  mkState {[ A := 0 ]} [mkObject ClassAction None; mkObject ClassAction None]
          [[0; 1]] 0.
(** [classAction.addReactions(reaction2, reaction2)] on [s_two]:
    [classAction.reactions] is [[reaction1, reaction2, reaction2, reaction2]]. *)
Definition s_dup : state nat := state_of (addReactions 2 [1; 1] s_two).

(** [new A(reaction1, reaction2)] where [A] has the static default
    [[reaction1, reaction2]]: the instance is 2, its own array is 1. *)
Definition s_all : state nat := state_of (new A [0; 1] s_static).

(** [a = new ClassAction(); a.addReactions(a)]: instance 0 is its own
    reaction. *)
Definition s_self : state nat :=
  state_of ((a <- new ClassAction [] ;; addReactions a [a]) s0).

(** The tests of [act], [doAction] and [doReactions]:
    [class MyClassAction extends ClassAction { doAction(context) { count++ } }].
    Next to the counter the probe keeps which instance ran, in order. *)
Record probe : Type := mkProbe { count : nat; order : list ref }.

Definition MyClassAction : classid := [3].

Definition bump : behaviour probe unit :=
  fun this _ s =>
    Ok tt (set_user s (mkProbe (S (count (user s))) (order (user s) ++ [this]))).

Definition counting (c : classid) : option (behaviour probe unit) :=
  if decide (c = MyClassAction) then Some bump else None.

Definition p0 : state probe := mkState ∅ [] [] (mkProbe 0 []).

(** [classAction = new MyClassAction(new MyClassAction(), new MyClassAction())]:
    the reactions are instances 0 and 1, [classAction] is instance 2. *)
Definition p_three : state probe :=
  state_of ((r1 <- new MyClassAction [] ;;
             r2 <- new MyClassAction [] ;;
             new MyClassAction [r1; r2]) p0).
(** An instance of [MyClassAction] without reactions of any kind. *)
Definition leaf (s : state probe) (r : ref) : Prop :=
  exists o,
    objs s !! r = Some o /\ constructor_ o = MyClassAction
    /\ all_list s r = Some [].

(** What [count++] in [doAction] of instance [r] makes of the probe. *)
Definition bumped (r : ref) (u : probe) : probe :=
  mkProbe (S (count u)) (order u ++ [r]).

(** [a = new MyClassAction(); b = new MyClassAction(a);
    c = new MyClassAction(); root = new MyClassAction(b, c)]:
    [a], [b], [c] and [root] are instances 0, 1, 2 and 3. *)
Definition p_nested : state probe :=
  state_of ((a <- new MyClassAction [] ;;
             b <- new MyClassAction [a] ;;
             c <- new MyClassAction [] ;;
             new MyClassAction [b; c]) p0).

(** An override that fails:
    [class Failing extends ClassAction { doAction() { throw 7 } }];
    the other classes are as in [counting]. *)
Definition Failing : classid := [4].

Definition faulty (c : classid) : option (behaviour probe unit) :=
  if decide (c = Failing) then Some (fun _ _ => throw (Raised 7))
  else counting c.

(** [root = new MyClassAction(new MyClassAction(), new Failing(),
    new MyClassAction())]: the reactions are instances 0, 1 and 2,
    [root] is instance 3. *)
Definition p_fail : state probe :=
  state_of ((r1 <- new MyClassAction [] ;;
             r2 <- new Failing [] ;;
             r3 <- new MyClassAction [] ;;
             new MyClassAction [r1; r2; r3]) p0).

(** An override that changes the sequence being propagated: each
    reaction of instance 2 adds itself once more to instance 2 and
    removes instance 0 from it, then counts. *)
Definition grow : behaviour probe unit :=
  fun this context =>
    addReactions 2 [this] ;;; removeReaction 2 0 ;;; bump this context.

Definition growing (c : classid) : option (behaviour probe unit) :=
  if decide (c = MyClassAction) then Some grow else None.
End Fixtures.

(** ** Reaction trees

    The shape of a propagation: a tree whose nodes name instances. The
    same instance may label several nodes (a reaction shared by several
    parents, or added twice). *)

Local Unset Elimination Schemes.

Inductive rtree : Type :=
  | Node (r : ref) (children : list rtree).

Definition root (t : rtree) : ref :=
  match t with Node r _ => r end.

(** The nodes, parent before children, children from left to right. *)
Fixpoint preorder (t : rtree) : list ref :=
  match t with
  | Node r ts => r :: concat (List.map preorder ts)
  end.

(** Recursion bound that [act] needs on a tree: one level per
    generation, and one loop step per reaction plus the last test. *)
Fixpoint need (t : rtree) : nat :=
  match t with
  | Node _ ts => S (Nat.max (S (length ts)) (max_list (List.map need ts)))
  end.

(** The store unfolds to [t] from its root: every node is an instance of
    [MyClassAction] whose reactions, type-level then own, are the roots
    of its children. *)
Inductive unfolds (s : state Fixtures.probe) : rtree -> Prop :=
  | unfolds_node r ts o :
      objs s !! r = Some o ->
      constructor_ o = Fixtures.MyClassAction ->
      all_list s r = Some (List.map root ts) ->
      Forall (unfolds s) ts ->
      unfolds s (Node r ts).

Local Set Elimination Schemes.

(** What [count++] in the [doAction] of each instance of [l], in order,
    makes of the probe. *)
Definition advanced (l : list ref) (u : Fixtures.probe) : Fixtures.probe :=
  Fixtures.mkProbe (Fixtures.count u + length l) (Fixtures.order u ++ l).

(** ** The build with [removeReactions]

    The compiled class of [src/unnamed/part_001] differs from
    [src/class-action.ts]: its static accessor tests
    [hasOwnProperty('reactions')] and it removes several reactions per
    call. Its generator accessors and keyed reactions are not modelled. *)

Module Variant.
Section Variant.
Context {U C : Type}.

(** [static getReactions(context)]: [[]] unless the class itself owns
    [reactions]. *)
Definition static_getReactions (cls : classid) (context : C) : M U aref :=
  fun s => match statics s !! cls with
           | None => alloc_array [] s
           | Some a => Ok a s
           end.

(** One turn of the loop of [removeReactions]:
    [this.reactions.splice(this.reactions.indexOf(reaction), 1)]. *)
Definition removeReactions_step (this : ref) (reaction : ref) : M U unit :=
  o <- get_object this ;;
  match own_reactions o with
  | None => throw TypeError
  | Some a =>
      l <- read_array a ;;
      write_array a (splice l (indexOf l reaction) 1)
  end.

(** [for (let reaction of reactions) ...] over the rest parameter, an
    array that nothing else holds and that the loop body does not reach. *)
Fixpoint removeReactions_loop (this : ref) (reactions : list ref) : M U unit :=
  match reactions with
  | [] => ret tt
  | reaction :: rest =>
      removeReactions_step this reaction ;;; removeReactions_loop this rest
  end.

(** [removeReactions(...reactions)] *)
Definition removeReactions (this : ref) (reactions : list ref) : M U unit :=
  o <- get_object this ;;
  match own_reactions o with
  | None => ret tt
  | Some _ => removeReactions_loop this reactions
  end.
End Variant.

(** What the loop of [removeReactions] makes of the sequence [l]. *)
Definition spliced_all (l reactions : list ref) : list ref :=
  fold_left (fun l reaction => splice l (indexOf l reaction) 1) reactions l.
End Variant.

(** * Properties *)

Ltac munfold :=
  unfold removeReaction, addReactions, getAllReactions, getReactions,
    static_getReactions, constructor, new, set_own_reactions, get_object,
    write_array, read_array, alloc_array, bind, ret, throw in *.

(** ** Arrays *)

Lemma indexOf_absent (l : list ref) (x : ref) :
  x ∉ l -> indexOf l x = (-1)%Z.
Proof.
  induction l as [|y l IH]; intros Hx; simpl; [done|].
  apply not_elem_of_cons in Hx as [Hne Hl].
  destruct (decide (y = x)) as [->|_]; [done|].
  rewrite (IH Hl). reflexivity.
Qed.

Lemma indexOf_first (l1 l2 : list ref) (x : ref) :
  x ∉ l1 -> indexOf (l1 ++ x :: l2) x = Z.of_nat (length l1).
Proof.
  induction l1 as [|y l1 IH]; intros Hx; simpl.
  - destruct (decide (x = x)); done.
  - apply not_elem_of_cons in Hx as [Hne Hl].
    destruct (decide (y = x)) as [->|_]; [done|].
    rewrite (IH Hl).
    destruct (Z.ltb_spec (Z.of_nat (length l1)) 0); lia.
Qed.

Lemma splice_one_at (l1 l2 : list ref) (x : ref) :
  splice (l1 ++ x :: l2) (Z.of_nat (length l1)) 1 = l1 ++ l2.
Proof.
  unfold splice. rewrite length_app. simpl.
  destruct (Z.ltb_spec (Z.of_nat (length l1)) 0) as [?|_]; [lia|].
  rewrite Z.min_l by lia.
  replace (Z.min (Z.max 1 0) _) with 1%Z by lia.
  rewrite Nat2Z.id.
  replace (Z.to_nat (Z.of_nat (length l1) + 1)) with (length l1 + 1) by lia.
  rewrite take_app_length.
  rewrite drop_app_add'; [|done]. reflexivity.
Qed.

Lemma splice_absent_nonempty (l : list ref) (x : ref) :
  splice (l ++ [x]) (-1) 1 = l.
Proof.
  unfold splice. rewrite length_app. simpl.
  replace (Z.max _ 0) with (Z.of_nat (length l)) by lia.
  replace (Z.min (Z.max 1 0) _) with 1%Z by lia.
  rewrite Nat2Z.id.
  replace (Z.to_nat (Z.of_nat (length l) + 1)) with (length l + 1) by lia.
  rewrite take_app_length.
  rewrite drop_app_add'; [|done]. simpl. by rewrite app_nil_r.
Qed.

Lemma splice_absent_empty : splice [] (-1) 1 = [].
Proof. reflexivity. Qed.

(** ** [removeReaction] *)

Section RemoveReaction.
Context {U : Type}.
Implicit Types (s : state U) (o : object) (l : list ref).

Lemma removeReaction_no_sequence s this o reaction :
  objs s !! this = Some o ->
  own_reactions o = None ->
  removeReaction this reaction s = Ok tt s.
Proof. intros Ho Hown. munfold. by rewrite Ho, Hown. Qed.

Lemma removeReaction_spliced s this o a l reaction :
  objs s !! this = Some o ->
  own_reactions o = Some a ->
  arrays s !! a = Some l ->
  removeReaction this reaction s
  = Ok tt (set_arrays s (<[a := splice l (indexOf l reaction) 1]> (arrays s))).
Proof. intros Ho Hown Ha. munfold. by rewrite Ho, Hown, Ha. Qed.

(** What the code does when the reference is absent: [indexOf] answers
    [-1] and [splice(-1, 1)] deletes the last element. *)
Lemma removeReaction_absent_last s this o a l x reaction :
  objs s !! this = Some o ->
  own_reactions o = Some a ->
  arrays s !! a = Some (l ++ [x]) ->
  reaction ∉ l ++ [x] ->
  removeReaction this reaction s = Ok tt (set_arrays s (<[a := l]> (arrays s))).
Proof.
  intros Ho Hown Ha Hx.
  rewrite (removeReaction_spliced _ _ _ _ _ _ Ho Hown Ha).
  by rewrite (indexOf_absent _ _ Hx), splice_absent_nonempty.
Qed.

(** C7: when the own sequence holds the reference, [removeReaction]
    deletes its first occurrence and nothing else: the sequence
    [l1 ++ reaction :: l2], with [reaction] not in [l1], becomes
    [l1 ++ l2], whatever [l2] holds, and the rest of the store is kept. *)
Theorem removeReaction_removes_first s this o a l1 l2 reaction :
  objs s !! this = Some o ->
  own_reactions o = Some a ->
  arrays s !! a = Some (l1 ++ reaction :: l2) ->
  reaction ∉ l1 ->
  removeReaction this reaction s
  = Ok tt (set_arrays s (<[a := l1 ++ l2]> (arrays s))).
Proof.
  intros Ho Hown Ha Hx.
  rewrite (removeReaction_spliced _ _ _ _ _ _ Ho Hown Ha).
  by rewrite (indexOf_first _ _ _ Hx), splice_one_at.
Qed.
End RemoveReaction.

(** C1: on the instance of the test suite, once [reaction2] has been
    removed from [[reaction1, reaction2]], the sequence is [[reaction1]]
    and does not hold [reaction2]; removing [reaction2] again deletes
    [reaction1] and leaves the empty sequence. *)
Theorem removeReaction_absent_removes_last :
  let s1 := state_of (removeReaction 2 1 Fixtures.s_two) in
  arrays s1 !! 0 = Some [0]
  /\ (1 ∉ [0])
  /\ removeReaction 2 1 s1 = Ok tt (set_arrays s1 [[]]).
Proof.
  cbv zeta. split; [reflexivity|]. split; [|reflexivity].
  intros H. apply list_elem_of_singleton in H. discriminate.
Qed.

(** ** [addReactions] and the constructor *)

Section AddReactions.
Context {U : Type}.
Implicit Types (s : state U) (o : object) (l : list ref).

Lemma lookup_snoc_length {A} (xs : list A) (x : A) :
  (xs ++ [x]) !! length xs = Some x.
Proof. rewrite lookup_app_r by lia. by rewrite Nat.sub_diag. Qed.

Lemma insert_snoc_length {A} (xs : list A) (x y : A) :
  <[length xs := y]> (xs ++ [x]) = xs ++ [y].
Proof.
  rewrite insert_app_r_alt by lia. by rewrite Nat.sub_diag.
Qed.

(** C6: [addReactions] appends its arguments, in the order given and
    once per occurrence, to the own sequence of the instance: a sequence
    holding [l] becomes [l ++ reactions]; an instance without one gets a
    new sequence holding exactly [reactions]. Nothing else changes. *)
Theorem addReactions_appends s this o reactions :
  objs s !! this = Some o ->
  (own_reactions o = None ->
     addReactions this reactions s
     = Ok tt (mkState (statics s)
                (<[this := mkObject (constructor_ o) (Some (length (arrays s)))]> (objs s))
                (arrays s ++ [reactions]) (user s)))
  /\ (forall a l,
        own_reactions o = Some a ->
        arrays s !! a = Some l ->
        addReactions this reactions s
        = Ok tt (set_arrays s (<[a := l ++ reactions]> (arrays s)))).
Proof.
  intros Ho. split.
  - intros Hown. munfold. rewrite Ho, Hown. simpl. rewrite Ho. simpl.
    rewrite list_lookup_insert_eq by (by eapply lookup_lt_Some).
    simpl. rewrite lookup_snoc_length. unfold set_objs, set_arrays. simpl.
    by rewrite insert_snoc_length.
  - intros a l Hown Ha. munfold. rewrite Ho, Hown. simpl.
    by rewrite Ho, Hown, Ha.
Qed.

End AddReactions.

(** ** The accessors *)

Section Accessors.
Context {U C : Type}.
Implicit Types (s : state U) (o : object) (l : list ref) (context : C).

Lemma lookup_static_nearest (st : gmap classid aref) cls k a :
  k <= length cls ->
  st !! drop k cls = Some a ->
  (forall j, j < k -> st !! drop j cls = None) ->
  lookup_static st cls = Some a.
Proof.
  revert k. induction cls as [|n super IH]; intros k Hk Ha Hnone.
  - by destruct k.
  - destruct k as [|k]; simpl in *.
    + by rewrite Ha.
    + pose proof (Hnone 0 ltac:(lia)) as H0. simpl in H0. rewrite H0.
      apply (IH k); [lia|done|].
      intros j Hj. apply (Hnone (S j)). lia.
Qed.

Lemma lookup_static_none (st : gmap classid aref) cls :
  (forall k, k <= length cls -> st !! drop k cls = None) ->
  lookup_static st cls = None.
Proof.
  induction cls as [|n super IH]; intros Hnone.
  - apply (Hnone 0). simpl. lia.
  - pose proof (Hnone 0 ltac:(simpl; lia)) as H0. simpl in *. rewrite H0.
    apply IH. intros k Hk. apply (Hnone (S k)). simpl. lia.
Qed.

(** C2, as the code has it: the static accessor answers with the
    sequence owned by the nearest class of the inheritance chain of the
    invoking class (the class itself, then its superclasses in turn)
    that owns one, and with a new empty sequence when no class of the
    chain owns one. [drop k cls] is the [k]-th superclass of [cls]. *)
Theorem static_getReactions_nearest_owner cls context s :
  (forall k a,
      k <= length cls ->
      statics s !! drop k cls = Some a ->
      (forall j, j < k -> statics s !! drop j cls = None) ->
      static_getReactions cls context s = Ok a s)
  /\ ((forall k, k <= length cls -> statics s !! drop k cls = None) ->
      static_getReactions cls context s
      = Ok (length (arrays s)) (set_arrays s (arrays s ++ [[]]))).
Proof.
  split.
  - intros k a Hk Ha Hnone. unfold static_getReactions.
    by rewrite (lookup_static_nearest _ _ _ _ Hk Ha Hnone).
  - intros Hnone. unfold static_getReactions.
    by rewrite (lookup_static_none _ _ Hnone).
Qed.
End Accessors.

(** C2 fails as stated: class [B] owns no sequence, its superclass [A]
    owns [[reaction1, reaction2]], and [B.getReactions()] is not empty. *)
Lemma static_getReactions_inherited :
  ~ (statics Fixtures.s_static !! Fixtures.B = None ->
     exists a s',
       static_getReactions Fixtures.B tt Fixtures.s_static = Ok a s'
       /\ arrays s' !! a = Some []).
Proof.
  intros H. destruct (H eq_refl) as (a & s' & Hrun & Hl).
  vm_compute in Hrun. injection Hrun as <- <-. discriminate Hl.
Qed.


(** ** Store invariants *)

Section Invariants.
Context {U : Type}.
Implicit Types (s : state U) (o : object) (l : list ref) (a : aref).

Lemma extends_refl s : extends s s.
Proof. repeat split. exists []. by rewrite app_nil_r. Qed.

Lemma extends_trans s1 s2 s3 : extends s1 s2 -> extends s2 s3 -> extends s1 s3.
Proof.
  intros (Hs & Ho & n1 & Ha) (Hs' & Ho' & n2 & Ha').
  repeat split; [congruence|congruence|].
  exists (n1 ++ n2). by rewrite Ha', Ha, app_assoc.
Qed.

Lemma extends_alloc s l : extends s (set_arrays s (arrays s ++ [l])).
Proof. repeat split. by exists [l]. Qed.

Lemma extends_lookup s s' a l :
  extends s s' -> arrays s !! a = Some l -> arrays s' !! a = Some l.
Proof.
  intros (_ & _ & new & ->) Ha. by apply lookup_app_l_Some.
Qed.

Lemma extends_length s s' :
  extends s s' -> length (arrays s) <= length (arrays s').
Proof. intros (_ & _ & new & ->). rewrite length_app. lia. Qed.

Lemma extends_stable s s' : wf s -> extends s s' -> stable s s'.
Proof.
  intros [Hwo Hwc] Hext.
  pose proof (extends_length _ _ Hext) as Hlen.
  destruct Hext as (Hs & Ho & new & Ha).
  split.
  - split.
    + intros r o a. rewrite Ho. intros H1 H2.
      specialize (Hwo _ _ _ H1 H2). lia.
    + intros c a. rewrite Hs. intros H1. specialize (Hwc _ _ H1). lia.
  - intros a (Hlt & Hno & Hnc). split.
    + split; [lia|]. split.
      * intros r o. rewrite Ho. apply Hno.
      * intros c. rewrite Hs. apply Hnc.
    + rewrite Ha. by apply lookup_app_l.
Qed.

Lemma stable_refl s : wf s -> stable s s.
Proof. intros Hwf. split; [done|]. by intros a Ha. Qed.

Lemma stable_trans s1 s2 s3 : stable s1 s2 -> stable s2 s3 -> stable s1 s3.
Proof.
  intros [_ H12] [Hwf H23]. split; [done|].
  intros a Ha. destruct (H12 a Ha) as [Hp2 He2].
  destruct (H23 a Hp2) as [Hp3 He3]. split; [done|congruence].
Qed.

Lemma class_list_extends s s' c l :
  extends s s' -> class_list s c = Some l -> class_list s' c = Some l.
Proof.
  intros Hext. unfold class_list.
  destruct Hext as (Hs & Ho & new & Ha). rewrite Hs.
  destruct (lookup_static (statics s) c); [|done].
  rewrite Ha. apply lookup_app_l_Some.
Qed.

Lemma instance_list_extends s s' this l :
  extends s s' -> instance_list s this = Some l -> instance_list s' this = Some l.
Proof.
  intros Hext. unfold instance_list.
  destruct Hext as (Hs & Ho & new & Ha). rewrite Ho.
  destruct (objs s !! this) as [o|]; [|done].
  destruct (own_reactions o); [|done].
  rewrite Ha. apply lookup_app_l_Some.
Qed.

Lemma all_list_extends s s' this l :
  extends s s' -> all_list s this = Some l -> all_list s' this = Some l.
Proof.
  intros Hext. unfold all_list.
  pose proof Hext as (Hs & Ho & _). rewrite Ho.
  destruct (objs s !! this) as [o|]; [|done].
  destruct (class_list s (constructor_ o)) as [lc|] eqn:Hc; [|done].
  destruct (instance_list s this) as [li|] eqn:Hi; [|done].
  by rewrite (class_list_extends _ _ _ _ Hext Hc),
    (instance_list_extends _ _ _ _ Hext Hi).
Qed.

Lemma lookup_static_Some (st : gmap classid aref) c a :
  lookup_static st c = Some a -> exists c', st !! c' = Some a.
Proof.
  induction c as [|n super IH]; simpl.
  - intros H. by exists ClassAction.
  - destruct (st !! (n :: super)) as [a'|] eqn:E.
    + intros [= ->]. by exists (n :: super).
    + apply IH.
Qed.

(** In a well-formed store the accessors always denote something. *)
Lemma wf_all_list s this o :
  wf s -> objs s !! this = Some o -> is_Some (all_list s this).
Proof.
  intros [Hwo Hwc] Ho.
  assert (is_Some (class_list s (constructor_ o))) as [lc Hlc].
  { unfold class_list.
    destruct (lookup_static (statics s) (constructor_ o)) as [ac|] eqn:Hc;
      [|by eexists].
    destruct (lookup_static_Some _ _ _ Hc) as [c' Hc'].
    apply lookup_lt_is_Some_2. by eapply Hwc. }
  assert (is_Some (instance_list s this)) as [li Hli].
  { unfold instance_list. rewrite Ho.
    destruct (own_reactions o) as [ai|] eqn:Hi; [|by eexists].
    apply lookup_lt_is_Some_2. by eapply Hwo. }
  unfold all_list. rewrite Ho, Hlc, Hli. by eexists.
Qed.
End Invariants.

(** ** [getAllReactions] *)

Section GetAllReactions.
Context {U C : Type}.
Implicit Types (s : state U) (o : object) (l : list ref) (a : aref)
  (context : C).

Lemma static_getReactions_view cls context s :
  exists a s1,
    static_getReactions cls context s = Ok a s1
    /\ extends s s1 /\ user s1 = user s
    /\ arrays s1 !! a = class_list s cls.
Proof.
  unfold static_getReactions, class_list, alloc_array.
  destruct (lookup_static (statics s) cls) as [a|].
  - exists a, s. split; [done|]. split; [apply extends_refl|]. by split.
  - exists (length (arrays s)), (set_arrays s (arrays s ++ [[]])).
    split; [done|]. split; [apply extends_alloc|]. split; [done|].
    simpl. apply lookup_snoc_length.
Qed.

Lemma getReactions_view this context s o :
  objs s !! this = Some o ->
  exists a s1,
    getReactions this context s = Ok a s1
    /\ extends s s1 /\ user s1 = user s
    /\ arrays s1 !! a = instance_list s this.
Proof.
  intros Ho. unfold instance_list. munfold. rewrite Ho.
  destruct (own_reactions o) as [a|].
  - exists a, s. split; [done|]. split; [apply extends_refl|]. by split.
  - exists (length (arrays s)), (set_arrays s (arrays s ++ [[]])).
    split; [done|]. split; [apply extends_alloc|]. split; [done|].
    simpl. apply lookup_snoc_length.
Qed.

Lemma getAllReactions_invalid this context s :
  objs s !! this = None ->
  getAllReactions this context s = Throw TypeError s.
Proof. intros Ho. munfold. by rewrite Ho. Qed.

(** Whatever it answers, [getAllReactions] only adds arrays. *)
Lemma getAllReactions_extends this context s res :
  getAllReactions this context s = res ->
  extends s (state_of res) /\ user (state_of res) = user s.
Proof.
  intros Hres.
  destruct (objs s !! this) as [o|] eqn:Ho.
  2:{ rewrite getAllReactions_invalid in Hres by done. subst res.
      split; [apply extends_refl|done]. }
  destruct (static_getReactions_view (constructor_ o) context s)
    as (ac & s1 & Hc & He1 & Hu1 & _).
  assert (objs s1 !! this = Some o) as Ho1.
  { destruct He1 as (_ & -> & _). done. }
  destruct (getReactions_view this context s1 o Ho1)
    as (ai & s2 & Hi & He2 & Hu2 & _).
  assert (extends s s2) as He by (by eapply extends_trans).
  unfold getAllReactions, bind at 1, get_object in Hres. rewrite Ho in Hres.
  unfold bind at 1 in Hres. rewrite Hc in Hres.
  unfold bind at 1 in Hres. rewrite Hi in Hres.
  unfold bind, read_array, alloc_array in Hres.
  destruct (arrays s2 !! ac) as [l1|]; simpl in Hres.
  2:{ subst res. split; [done|simpl; congruence]. }
  destruct (arrays s2 !! ai) as [l2|]; simpl in Hres.
  2:{ subst res. split; [done|simpl; congruence]. }
  subst res. split; [|simpl; congruence].
  eapply extends_trans; [by apply He|]. apply extends_alloc.
Qed.

(** The run of [getAllReactions] where the accessors denote [l]. *)
Lemma getAllReactions_run this context s l :
  all_list s this = Some l ->
  exists a s1,
    getAllReactions this context s = Ok a s1
    /\ extends s s1 /\ user s1 = user s
    /\ arrays s1 !! a = Some l
    /\ length (arrays s) <= a < length (arrays s1).
Proof.
  unfold all_list. destruct (objs s !! this) as [o|] eqn:Ho; [|done].
  destruct (class_list s (constructor_ o)) as [lc|] eqn:Hlc; [|done].
  destruct (instance_list s this) as [li|] eqn:Hli; [|done].
  intros [= <-].
  destruct (static_getReactions_view (constructor_ o) context s)
    as (ac & s1 & Hc & He1 & Hu1 & Hac).
  assert (objs s1 !! this = Some o) as Ho1.
  { destruct He1 as (_ & -> & _). done. }
  destruct (getReactions_view this context s1 o Ho1)
    as (ai & s2 & Hi & He2 & Hu2 & Hai).
  rewrite Hlc in Hac.
  rewrite (instance_list_extends _ _ _ _ He1 Hli) in Hai.
  pose proof (extends_lookup _ _ _ _ He2 Hac) as Hac2.
  exists (length (arrays s2)), (set_arrays s2 (arrays s2 ++ [lc ++ li])).
  unfold getAllReactions, bind at 1, get_object. rewrite Ho.
  unfold bind at 1. rewrite Hc. unfold bind at 1. rewrite Hi.
  unfold bind, read_array, alloc_array. rewrite Hac2, Hai.
  unfold flat. simpl. rewrite app_nil_r.
  split; [done|]. split.
  { eapply extends_trans; [by apply He1|].
    eapply extends_trans; [by apply He2|]. apply extends_alloc. }
  split; [congruence|]. split; [apply lookup_snoc_length|].
  pose proof (extends_length _ _ He1). pose proof (extends_length _ _ He2).
  rewrite length_app. simpl. lia.
Qed.

(** C4: [getAllReactions] answers with a new sequence holding what the
    static accessor of the instance's own class ([this.constructor])
    answers, followed by what [getReactions] answers, each in its own
    order; the instances, the classes, the existing arrays and the
    data of the overriding code are as before the call. *)
Theorem getAllReactions_concat this context s o ac sc lc ai si li :
  objs s !! this = Some o ->
  static_getReactions (constructor_ o) context s = Ok ac sc ->
  arrays sc !! ac = Some lc ->
  getReactions this context s = Ok ai si ->
  arrays si !! ai = Some li ->
  exists a s',
    getAllReactions this context s = Ok a s'
    /\ arrays s' !! a = Some (lc ++ li)
    /\ length (arrays s) <= a
    /\ extends s s' /\ user s' = user s.
Proof.
  intros Ho Hc Hlc Hi Hli.
  destruct (static_getReactions_view (constructor_ o) context s)
    as (ac' & s1 & Hc' & _ & _ & Hac).
  rewrite Hc in Hc'. injection Hc' as <- <-. rewrite Hlc in Hac.
  destruct (getReactions_view this context s o Ho)
    as (ai' & s2 & Hi' & _ & _ & Hai).
  rewrite Hi in Hi'. injection Hi' as <- <-. rewrite Hli in Hai.
  assert (all_list s this = Some (lc ++ li)) as Hall.
  { unfold all_list. by rewrite Ho, <- Hac, <- Hai. }
  destruct (getAllReactions_run this context s _ Hall)
    as (a & s' & Hrun & Hext & Hu & Ha & Hfresh).
  exists a, s'. split; [done|]. split; [done|]. split; [lia|]. by split.
Qed.
End GetAllReactions.

(** ** Propagation *)

Section PropagationFacts.
Context {U C : Type}.
Variable overrides : classid -> option (behaviour U C).
Hypothesis overrides_frame : forall c b, overrides c = Some b -> frames b.

Implicit Types (s : state U) (o : object) (l : list ref) (a : aref)
  (context : C) (body : ref -> state U -> option (result U unit)).

Lemma resolve_doAction_frames c : frames (resolve_doAction overrides c).
Proof.
  induction c as [|n super IH]; simpl.
  - intros this context s Hwf. by apply stable_refl.
  - destruct (overrides (n :: super)) as [b|] eqn:Hb; [|done].
    by eapply overrides_frame.
Qed.

Lemma doAction_stable this context s :
  wf s -> stable s (state_of (doAction overrides this context s)).
Proof.
  intros Hwf. unfold doAction, bind, get_object.
  destruct (objs s !! this) as [o|]; [|by apply stable_refl].
  pose proof (resolve_doAction_frames (constructor_ o) this context s Hwf).
  by destruct (resolve_doAction overrides (constructor_ o) this context s).
Qed.

Lemma getAllReactions_stable this context s :
  wf s -> stable s (state_of (getAllReactions this context s)).
Proof.
  intros Hwf. apply extends_stable; [done|].
  by apply (getAllReactions_extends this context s).
Qed.

(** The array [getAllReactions] answers with is new, hence private. *)
Lemma getAllReactions_private this context s a s1 :
  wf s ->
  getAllReactions this context s = Ok a s1 ->
  private a s1
  /\ extends s s1 /\ user s1 = user s
  /\ exists l, all_list s this = Some l /\ arrays s1 !! a = Some l.
Proof.
  intros Hwf Hrun.
  destruct (objs s !! this) as [o|] eqn:Ho.
  2:{ by rewrite getAllReactions_invalid in Hrun. }
  destruct (wf_all_list s this o Hwf Ho) as [l Hl].
  destruct (getAllReactions_run this context s l Hl)
    as (a' & s1' & Hrun' & Hext & Hu & Ha & Hfresh).
  rewrite Hrun in Hrun'. injection Hrun' as <- <-.
  split; [|by eauto].
  destruct Hwf as [Hwo Hwc]. destruct Hext as (Hs & Hobj & _).
  split; [lia|]. split.
  - intros r o'. rewrite Hobj. intros Ho' Hown.
    specialize (Hwo _ _ _ Ho' Hown). lia.
  - intros c. rewrite Hs. intros Hc. specialize (Hwc _ _ Hc). lia.
Qed.

Lemma for_of_stable fuel body a :
  body_stable body ->
  forall i s res,
    wf s -> for_of fuel body a i s = Some res -> stable s (state_of res).
Proof.
  intros Hbody. induction fuel as [|n IH]; intros i s res Hwf; simpl; [done|].
  destruct (arrays s !! a) as [l|].
  2:{ intros [= <-]. by apply stable_refl. }
  destruct (l !! i) as [r|].
  2:{ intros [= <-]. by apply stable_refl. }
  destruct (body r s) as [[[] s'|e s']|] eqn:Hr; [| |done].
  - pose proof (Hbody _ _ _ Hwf Hr) as Hst. simpl in Hst.
    intros Hrest. eapply stable_trans; [by apply Hst|].
    eapply IH; [|done]. by destruct Hst.
  - intros [= <-]. by apply (Hbody _ _ _ Hwf Hr).
Qed.

Lemma act_stable fuel :
  forall this context s res,
    wf s -> act overrides fuel this context s = Some res ->
    stable s (state_of res).
Proof.
  induction fuel as [|n IH]; intros this context s res Hwf; simpl; [done|].
  pose proof (doAction_stable this context s Hwf) as Hd.
  destruct (doAction overrides this context s) as [[] s1|e s1]; simpl in Hd.
  2:{ by intros [= <-]. }
  unfold doReactions_with.
  assert (wf s1) as Hwf1 by (by destruct Hd).
  pose proof (getAllReactions_stable this context s1 Hwf1) as Hg.
  destruct (getAllReactions this context s1) as [a s2|e s2]; simpl in Hg.
  2:{ intros [= <-]. by eapply stable_trans. }
  intros Hloop. eapply stable_trans; [by apply Hd|].
  eapply stable_trans; [by apply Hg|].
  eapply (for_of_stable n (fun reaction => act overrides n reaction context));
    [|by destruct Hg|by apply Hloop].
  intros r s' res' Hwf' Hr. by eapply IH.
Qed.

Lemma act_body_stable fuel context :
  body_stable (fun reaction => act overrides fuel reaction context).
Proof. intros r s res Hwf Hr. by eapply act_stable. Qed.

(** The live iteration over a private array visits the elements the
    array had when the loop started. *)
Lemma for_of_snapshot fuel body a l :
  body_stable body ->
  forall i s,
    wf s -> private a s -> arrays s !! a = Some l ->
    length l - i < fuel ->
    for_of fuel body a i s = act_each body (drop i l) s.
Proof.
  intros Hbody.
  induction fuel as [|n IH]; intros i s Hwf Hpriv Ha Hfuel; [lia|].
  simpl. rewrite Ha.
  destruct (l !! i) as [r|] eqn:Hi.
  - rewrite (drop_S _ _ _ Hi). simpl.
    destruct (body r s) as [[[] s'|e s']|] eqn:Hr; [|done|done].
    destruct (Hbody _ _ _ Hwf Hr) as [Hwf' Hkeep]. simpl in *.
    destruct (Hkeep a Hpriv) as [Hpriv' Ha'].
    apply IH; [done|done|congruence|].
    apply lookup_lt_Some in Hi. lia.
  - apply lookup_ge_None in Hi. by rewrite drop_ge.
Qed.

(** [doReactions] invokes [act] on the elements of the sequence that
    [getAllReactions] answered with at the start of the call. *)
Lemma doReactions_snapshot fuel this context s a s1 l :
  wf s ->
  getAllReactions this context s = Ok a s1 ->
  arrays s1 !! a = Some l ->
  length l < fuel ->
  doReactions overrides fuel this context s
  = act_each (fun reaction => act overrides fuel reaction context) l s1.
Proof.
  intros Hwf Hrun Ha Hfuel.
  destruct (getAllReactions_private _ _ _ _ _ Hwf Hrun)
    as (Hpriv & Hext & _ & _).
  unfold doReactions, doReactions_with. rewrite Hrun.
  rewrite (for_of_snapshot fuel _ a l (act_body_stable fuel context) 0 s1);
    [by rewrite drop_0| |done|done|lia].
  by destruct (extends_stable s s1 Hwf Hext).
Qed.
End PropagationFacts.

(** ** The mutators leave private arrays alone *)

Section Mutators.
Context {U : Type}.
Implicit Types (s : state U) (o : object) (l : list ref) (a : aref).

(** Writing to an array that an instance holds. *)
Lemma write_owned_stable s this o a l :
  wf s ->
  objs s !! this = Some o -> own_reactions o = Some a ->
  stable s (set_arrays s (<[a := l]> (arrays s))).
Proof.
  intros [Hwo Hwc] Ho Hown. split.
  - split; simpl.
    + intros r o' a' H1 H2. rewrite length_insert. by eapply Hwo.
    + intros c a' H1. rewrite length_insert. by eapply Hwc.
  - intros a' (Hlt & Hno & Hnc). split.
    + split; simpl; [by rewrite length_insert|]. by split.
    + simpl. apply list_lookup_insert_ne. intros ->. by eapply Hno.
Qed.

(** Giving an instance a new array of its own. *)
Lemma own_fresh_stable s this o l :
  wf s ->
  objs s !! this = Some o ->
  stable s (mkState (statics s)
              (<[this := mkObject (constructor_ o) (Some (length (arrays s)))]> (objs s))
              (arrays s ++ [l]) (user s)).
Proof.
  intros [Hwo Hwc] Ho. split.
  - split; simpl.
    + intros r o' a' H1 H2. rewrite length_app. simpl.
      destruct (decide (r = this)) as [->|Hne].
      * rewrite list_lookup_insert_eq in H1 by (by eapply lookup_lt_Some).
        injection H1 as <-. simpl in H2. injection H2 as <-. lia.
      * rewrite list_lookup_insert_ne in H1 by done.
        specialize (Hwo _ _ _ H1 H2). lia.
    + intros c a' H1. rewrite length_app. simpl.
      specialize (Hwc _ _ H1). lia.
  - intros a' (Hlt & Hno & Hnc). split.
    + split; simpl; [rewrite length_app; simpl; lia|]. split; [|done].
      intros r o' H1.
      destruct (decide (r = this)) as [->|Hne].
      * rewrite list_lookup_insert_eq in H1 by (by eapply lookup_lt_Some).
        injection H1 as <-. simpl. intros [= Heq]. lia.
      * rewrite list_lookup_insert_ne in H1 by done. by eapply Hno.
    + simpl. by apply lookup_app_l.
Qed.

Lemma addReactions_fresh s this o reactions :
  objs s !! this = Some o ->
  own_reactions o = None ->
  addReactions this reactions s
  = Ok tt (mkState (statics s)
             (<[this := mkObject (constructor_ o) (Some (length (arrays s)))]> (objs s))
             (arrays s ++ [reactions]) (user s)).
Proof.
  intros Ho Hown. munfold. rewrite Ho, Hown. simpl. rewrite Ho. simpl.
  rewrite list_lookup_insert_eq by (by eapply lookup_lt_Some).
  simpl. rewrite lookup_snoc_length. unfold set_objs, set_arrays. simpl.
  by rewrite insert_snoc_length.
Qed.

Lemma addReactions_push s this o a l reactions :
  objs s !! this = Some o ->
  own_reactions o = Some a ->
  arrays s !! a = Some l ->
  addReactions this reactions s
  = Ok tt (set_arrays s (<[a := l ++ reactions]> (arrays s))).
Proof.
  intros Ho Hown Ha. munfold. rewrite Ho, Hown. simpl.
  by rewrite Ho, Hown, Ha.
Qed.

Lemma addReactions_stable this reactions s :
  wf s -> stable s (state_of (addReactions this reactions s)).
Proof.
  intros Hwf.
  destruct (objs s !! this) as [o|] eqn:Ho.
  2:{ munfold. rewrite Ho. by apply stable_refl. }
  destruct (own_reactions o) as [a|] eqn:Hown.
  - destruct (arrays s !! a) as [l|] eqn:Ha.
    + rewrite (addReactions_push _ _ _ _ _ _ Ho Hown Ha).
      by eapply write_owned_stable.
    + munfold. rewrite Ho, Hown. simpl. rewrite Ho, Hown, Ha.
      by apply stable_refl.
  - rewrite (addReactions_fresh _ _ _ _ Ho Hown).
    by apply own_fresh_stable.
Qed.

Lemma removeReaction_stable this reaction s :
  wf s -> stable s (state_of (removeReaction this reaction s)).
Proof.
  intros Hwf.
  destruct (objs s !! this) as [o|] eqn:Ho.
  2:{ munfold. rewrite Ho. by apply stable_refl. }
  destruct (own_reactions o) as [a|] eqn:Hown.
  - destruct (arrays s !! a) as [l|] eqn:Ha.
    + rewrite (removeReaction_spliced _ _ _ _ _ _ Ho Hown Ha).
      by eapply write_owned_stable.
    + munfold. rewrite Ho, Hown, Ha. by apply stable_refl.
  - rewrite (removeReaction_no_sequence _ _ _ _ Ho Hown).
    by apply stable_refl.
Qed.

Lemma set_user_stable s u : wf s -> stable s (set_user s u).
Proof. intros Hwf. split; [done|]. by intros a Ha. Qed.

(** Running one override after another. *)
Lemma frames_seq {C : Type} (b1 b2 : behaviour U C) :
  frames b1 -> frames b2 ->
  frames (fun this context => b1 this context ;;; b2 this context).
Proof.
  intros H1 H2 this context s Hwf. unfold bind.
  pose proof (H1 this context s Hwf) as Hs1.
  destruct (b1 this context s) as [[] s1|e s1]; simpl in *; [|done].
  eapply stable_trans; [by apply Hs1|]. apply H2. by destruct Hs1.
Qed.
End Mutators.

(** ** Order of propagation and failures *)

Section PropagationClaims.
Context {U C : Type}.
Variable overrides : classid -> option (behaviour U C).
Hypothesis overrides_frame : forall c b, overrides c = Some b -> frames b.

Implicit Types (s : state U) (o : object) (l : list ref) (a : aref)
  (context : C) (body : ref -> state U -> option (result U unit)).

Lemma act_each_throw body l1 r l2 s1 sk e s' :
  act_each body l1 s1 = Some (Ok tt sk) ->
  body r sk = Some (Throw e s') ->
  act_each body (l1 ++ r :: l2) s1 = Some (Throw e s').
Proof.
  revert s1. induction l1 as [|x l1 IH]; intros s1; simpl.
  - intros [= ->] Hr. by rewrite Hr.
  - destruct (body x s1) as [[[] s2|e2 s2]|]; [|done|done].
    apply IH.
Qed.

(** C10: [doReactions] invokes [act] on the elements that the sequence
    answered by [getAllReactions] had at the start of the call, in that
    order, whatever the overrides that run meanwhile do to the sequences
    that instances and classes hold; calls of [addReactions] and
    [removeReaction] on any instance are such overrides. *)
Theorem doReactions_invokes_initial_sequence fuel this context s a s1 l :
  wf s ->
  getAllReactions this context s = Ok a s1 ->
  arrays s1 !! a = Some l ->
  length l < fuel ->
  doReactions overrides fuel this context s
  = act_each (fun reaction => act overrides fuel reaction context) l s1
  /\ (forall target reactions,
        frames (fun (_ : ref) (_ : C) => addReactions (U := U) target reactions))
  /\ (forall target reaction,
        frames (fun (_ : ref) (_ : C) => removeReaction (U := U) target reaction)).
Proof.
  intros Hwf Hrun Ha Hfuel. split; [|split].
  - by eapply doReactions_snapshot.
  - intros target reactions _ _ s' Hwf'. by apply addReactions_stable.
  - intros target reaction _ _ s' Hwf'. by apply removeReaction_stable.
Qed.

(** C9: a failure raised by [doAction] makes [act] of that instance
    fail with it; and when [act] of a reaction fails, after the
    reactions before it in the sequence completed, [doReactions] and
    [act] of the propagating instance fail with the same value and the
    store as it was when the failure was raised: nothing is invoked
    after it and nothing is undone. *)
Theorem failure_aborts_propagation context :
  (forall n x s e s',
      doAction overrides x context s = Throw e s' ->
      act overrides (S n) x context s = Some (Throw e s'))
  /\ (forall fuel this s a s1 l1 r l2 sk e s',
        wf s ->
        getAllReactions this context s = Ok a s1 ->
        arrays s1 !! a = Some (l1 ++ r :: l2) ->
        length (l1 ++ r :: l2) < fuel ->
        act_each (fun reaction => act overrides fuel reaction context) l1 s1
        = Some (Ok tt sk) ->
        act overrides fuel r context sk = Some (Throw e s') ->
        doReactions overrides fuel this context s = Some (Throw e s')
        /\ (forall s0,
              doAction overrides this context s0 = Ok tt s ->
              act overrides (S fuel) this context s0 = Some (Throw e s'))).
Proof.
  split.
  - intros n x s e s' Hd. simpl. by rewrite Hd.
  - intros fuel this s a s1 l1 r l2 sk e s' Hwf Hrun Ha Hfuel Hpre Hr.
    assert (doReactions overrides fuel this context s = Some (Throw e s'))
      as Hdo.
    { rewrite (doReactions_snapshot overrides overrides_frame
                 fuel this context s a s1 _ Hwf Hrun Ha Hfuel).
      by apply (act_each_throw _ l1 r l2 s1 sk). }
    split; [done|].
    intros s0 Hd. simpl. by rewrite Hd.
Qed.

(** [act] runs [doAction] and then, in the store that [doAction] left,
    [doReactions]; if [doAction] fails, [doReactions] does not run. *)
Lemma act_unfold n this context s :
  act overrides (S n) this context s
  = match doAction overrides this context s with
    | Ok _ s1 => doReactions overrides n this context s1
    | Throw e s1 => Some (Throw e s1)
    end.
Proof. reflexivity. Qed.

Lemma doAction_resolved this context s o :
  objs s !! this = Some o ->
  doAction overrides this context s
  = resolve_doAction overrides (constructor_ o) this context s.
Proof. intros Ho. unfold doAction, bind, get_object. by rewrite Ho. Qed.
End PropagationClaims.

(** ** The counting overrides of the test suite *)

Section Counting.
Import Fixtures.
Implicit Types (s : state probe) (o : object) (l : list ref) (r : ref).

Lemma wf_check_sound {U : Type} (s : state U) : wf_check s = true -> wf s.
Proof.
  unfold wf_check. intros [Ho Hc]%andb_prop.
  apply bool_decide_eq_true in Hc. rewrite forallb_forall in Ho.
  split.
  - intros r o a Hr Hown.
    assert (In o (objs s)) as Hin.
    { apply list_elem_of_In. by eapply list_elem_of_lookup_2. }
    specialize (Ho o Hin). rewrite Hown in Ho. by apply Nat.ltb_lt.
  - intros c a Hca. by apply (Hc c a).
Qed.

Lemma bump_frames : frames bump.
Proof. intros this context s Hwf. by apply set_user_stable. Qed.

Lemma counting_frames c b : counting c = Some b -> frames b.
Proof.
  unfold counting. destruct (decide (c = MyClassAction)); [|done].
  intros [= <-]. apply bump_frames.
Qed.

Lemma faulty_frames c b : faulty c = Some b -> frames b.
Proof.
  unfold faulty. destruct (decide (c = Failing)); [|apply counting_frames].
  intros [= <-]. intros this context s Hwf. by apply stable_refl.
Qed.

Lemma growing_frames c b : growing c = Some b -> frames b.
Proof.
  unfold growing. destruct (decide (c = MyClassAction)); [|done].
  intros [= <-]. unfold grow.
  apply (frames_seq (fun _ _ => addReactions 2 _)
           (fun this context => removeReaction 2 0 ;;; bump this context)).
  - intros this context s Hwf. by apply addReactions_stable.
  - apply (frames_seq (fun _ _ => removeReaction 2 0) bump).
    + intros this context s Hwf. by apply removeReaction_stable.
    + apply bump_frames.
Qed.

Lemma doAction_counting s this o :
  objs s !! this = Some o ->
  constructor_ o = MyClassAction ->
  doAction counting this tt s = Ok tt (set_user s (bumped this (user s))).
Proof.
  intros Ho Hc. rewrite (doAction_resolved _ _ _ _ _ Ho), Hc. reflexivity.
Qed.

Lemma extends_set_user s u : extends s (set_user s u).
Proof. split; [done|]. split; [done|]. exists []. simpl. by rewrite app_nil_r. Qed.

Lemma extends_wf {U : Type} (s s' : state U) : wf s -> extends s s' -> wf s'.
Proof. intros Hwf Hext. by destruct (extends_stable s s' Hwf Hext). Qed.

Lemma leaf_extends s s' r : extends s s' -> leaf s r -> leaf s' r.
Proof.
  intros Hext (o & Ho & Hc & Hall). exists o.
  split; [|split; [done|by eapply all_list_extends]].
  destruct Hext as (_ & -> & _). done.
Qed.

(** [act] on an instance without reactions counts once. *)
Lemma act_leaf fuel s r :
  wf s -> leaf s r -> 2 <= fuel ->
  exists s',
    act counting fuel r tt s = Some (Ok tt s')
    /\ user s' = bumped r (user s) /\ extends s s'.
Proof.
  intros Hwf (o & Ho & Hc & Hall) Hfuel.
  destruct fuel as [|n]; [lia|].
  rewrite act_unfold, (doAction_counting _ _ _ Ho Hc).
  set (s1 := set_user s (bumped r (user s))).
  assert (extends s s1) as He1 by apply extends_set_user.
  assert (wf s1) as Hwf1 by (by eapply extends_wf).
  pose proof (all_list_extends _ _ _ _ He1 Hall) as Hall1.
  destruct (getAllReactions_run r tt s1 [] Hall1)
    as (a & s2 & Hrun & He2 & Hu & Ha & _).
  exists s2.
  rewrite (doReactions_snapshot counting counting_frames
             n r tt s1 a s2 [] Hwf1 Hrun Ha) by (simpl; lia).
  split; [done|]. split; [by rewrite Hu|]. by apply (extends_trans s s1 s2).
Qed.

Lemma act_each_leaves fuel l :
  2 <= fuel ->
  forall s,
    wf s -> Forall (leaf s) l ->
    exists s',
      act_each (fun reaction => act counting fuel reaction tt) l s
      = Some (Ok tt s')
      /\ user s' = mkProbe (count (user s) + length l) (order (user s) ++ l)
      /\ extends s s'.
Proof.
  intros Hfuel. induction l as [|r l IH]; intros s Hwf Hl; simpl.
  - exists s. split; [done|]. split; [|apply extends_refl].
    rewrite Nat.add_0_r, app_nil_r. by destruct (user s).
  - apply Forall_cons in Hl as [Hr Hl].
    destruct (act_leaf fuel s r Hwf Hr Hfuel) as (s1 & -> & Hu1 & He1).
    destruct (IH s1) as (s2 & Hrun & Hu2 & He2).
    { by eapply extends_wf. }
    { eapply Forall_impl; [by apply Hl|]. intros x. by apply leaf_extends. }
    exists s2. split; [done|]. split; [|by apply (extends_trans s s1 s2)].
    rewrite Hu2, Hu1. simpl. f_equal; [lia|]. by rewrite <- app_assoc.
Qed.

(** [doReactions] on an instance whose reactions have none themselves
    counts once per reaction, in order. *)
Lemma doReactions_leaves fuel s this l :
  wf s -> all_list s this = Some l -> Forall (leaf s) l ->
  length l < fuel -> 2 <= fuel ->
  exists s',
    doReactions counting fuel this tt s = Some (Ok tt s')
    /\ user s' = mkProbe (count (user s) + length l) (order (user s) ++ l)
    /\ extends s s'.
Proof.
  intros Hwf Hall Hl Hlen Hfuel.
  destruct (getAllReactions_run this tt s l Hall)
    as (a & s1 & Hrun & He1 & Hu1 & Ha & _).
  rewrite (doReactions_snapshot counting counting_frames
             fuel this tt s a s1 l Hwf Hrun Ha Hlen).
  destruct (act_each_leaves fuel l Hfuel s1) as (s2 & Hrun2 & Hu2 & He2).
  { by eapply extends_wf. }
  { eapply Forall_impl; [by apply Hl|]. intros x. by apply leaf_extends. }
  exists s2. split; [done|]. split; [by rewrite Hu2, Hu1|].
  by apply (extends_trans s s1 s2).
Qed.
End Counting.

(** C3: [act] is [doAction] followed, in the store [doAction] left, by
    [doReactions], and nothing of [doReactions] runs when [doAction]
    fails; with the counting override, on an instance whose reactions are
    two instances that have none, [act] adds exactly 3 to the counter and
    the three [doAction] bodies ran once each, the instance's own first,
    then the reactions in their order. *)
Theorem act_local_effect_then_reactions :
  (forall (U C : Type) (overrides : classid -> option (behaviour U C))
          n this context s,
      act overrides (S n) this context s
      = match doAction overrides this context s with
        | Ok _ s1 => doReactions overrides n this context s1
        | Throw e s1 => Some (Throw e s1)
        end)
  /\ (forall s this o r1 r2 fuel,
        wf s ->
        objs s !! this = Some o ->
        constructor_ o = Fixtures.MyClassAction ->
        all_list s this = Some [r1; r2] ->
        Fixtures.leaf s r1 -> Fixtures.leaf s r2 ->
        4 <= fuel ->
        exists s',
          act Fixtures.counting fuel this tt s = Some (Ok tt s')
          /\ user s'
             = Fixtures.mkProbe (Fixtures.count (user s) + 3)
                 (Fixtures.order (user s) ++ [this; r1; r2])
          /\ extends s s').
Proof.
  split; [reflexivity|].
  intros s this o r1 r2 fuel Hwf Ho Hc Hall Hr1 Hr2 Hfuel.
  destruct fuel as [|n]; [lia|].
  rewrite act_unfold, (doAction_counting _ _ _ Ho Hc).
  set (s1 := set_user s (Fixtures.bumped this (user s))).
  assert (extends s s1) as He1 by apply extends_set_user.
  destruct (doReactions_leaves n s1 this [r1; r2]) as (s2 & Hrun & Hu & He2).
  { by eapply extends_wf. }
  { by eapply all_list_extends. }
  { repeat constructor; by eapply leaf_extends. }
  { simpl. lia. }
  { lia. }
  exists s2. split; [done|]. split; [|by apply (extends_trans s s1 s2)].
  rewrite Hu. simpl. f_equal; [lia|]. by rewrite <- app_assoc.
Qed.

(** C8: [doAction] runs the body that the class of the instance resolves
    to and nothing else; with the counting override it adds exactly 1 to
    the counter and leaves the store as it is, whatever reactions the
    store attaches to the instance. [doReactions], on an instance of any
    class whose reactions [l] have none themselves, adds exactly
    [length l] (2 for two reactions) and runs the bodies of the
    reactions only, in their order. *)
Theorem doAction_local_doReactions_reactions :
  (forall (U C : Type) (overrides : classid -> option (behaviour U C))
          this context s o,
      objs s !! this = Some o ->
      doAction overrides this context s
      = resolve_doAction overrides (constructor_ o) this context s)
  /\ (forall s this o,
        objs s !! this = Some o ->
        constructor_ o = Fixtures.MyClassAction ->
        doAction Fixtures.counting this tt s
        = Ok tt (set_user s
                   (Fixtures.mkProbe (S (Fixtures.count (user s)))
                      (Fixtures.order (user s) ++ [this]))))
  /\ (forall s this l fuel,
        wf s ->
        all_list s this = Some l ->
        Forall (Fixtures.leaf s) l ->
        length l < fuel -> 2 <= fuel ->
        exists s',
          doReactions Fixtures.counting fuel this tt s = Some (Ok tt s')
          /\ user s'
             = Fixtures.mkProbe (Fixtures.count (user s) + length l)
                 (Fixtures.order (user s) ++ l)
          /\ extends s s').
Proof.
  split; [|split].
  - intros U C overrides this context s o Ho. by apply doAction_resolved.
  - intros s this o Ho Hc. by apply (doAction_counting s this o).
  - intros s this l fuel Hwf Hall Hl Hlen Hfuel. by apply doReactions_leaves.
Qed.

(** * The properties on the scenarios of the test suite *)

(** [removeReaction(reaction2)] on [[reaction1, reaction2, reaction2,
    reaction2]] gives [[reaction1, reaction2, reaction2]]. *)
Lemma removeReaction_removes_first_witness :
  removeReaction 2 1 Fixtures.s_dup
  = Ok tt (set_arrays Fixtures.s_dup
             (<[0 := [0] ++ [1; 1]]> (arrays Fixtures.s_dup))).
Proof.
  apply (removeReaction_removes_first Fixtures.s_dup 2
           (mkObject ClassAction (Some 0)) 0 [0] [1; 1] 1).
  - reflexivity.
  - reflexivity.
  - reflexivity.
  - intros H. apply list_elem_of_singleton in H. discriminate H.
Defined.

(** [addReactions(reaction2, reaction2)] on [[reaction1, reaction2]]. *)
Lemma addReactions_appends_witness :
  addReactions 2 [1; 1] Fixtures.s_two
  = Ok tt (set_arrays Fixtures.s_two
             (<[0 := [0; 1] ++ [1; 1]]> (arrays Fixtures.s_two)))
  /\ addReactions 0 [1; 1] Fixtures.s_two
     = Ok tt (mkState (statics Fixtures.s_two)
                (<[0 := mkObject ClassAction (Some 1)]> (objs Fixtures.s_two))
                (arrays Fixtures.s_two ++ [[1; 1]]) (user Fixtures.s_two)).
Proof.
  split.
  - apply (proj2 (addReactions_appends Fixtures.s_two 2
                    (mkObject ClassAction (Some 0)) [1; 1] eq_refl) 0 [0; 1]);
      reflexivity.
  - apply (proj1 (addReactions_appends Fixtures.s_two 0
                    (mkObject ClassAction None) [1; 1] eq_refl)).
    reflexivity.
Defined.


(** [B.getReactions()] is the sequence of [A]; [ClassAction.getReactions()]
    is a new empty sequence. *)
Lemma static_getReactions_nearest_owner_witness :
  static_getReactions Fixtures.B tt Fixtures.s_static = Ok 0 Fixtures.s_static
  /\ static_getReactions ClassAction tt Fixtures.s_static
     = Ok 1 (set_arrays Fixtures.s_static (arrays Fixtures.s_static ++ [[]])).
Proof.
  split.
  - apply (proj1 (static_getReactions_nearest_owner Fixtures.B tt
                    Fixtures.s_static) 1 0).
    + simpl. lia.
    + reflexivity.
    + intros j Hj. assert (j = 0) as -> by lia. reflexivity.
  - apply (proj2 (static_getReactions_nearest_owner ClassAction tt
                    Fixtures.s_static)).
    intros k Hk. simpl in Hk. assert (k = 0) as -> by lia. reflexivity.
Defined.

(** [getAllReactions()] with the static default [[reaction1, reaction2]]
    and the own sequence [[reaction1, reaction2]]. *)
Lemma getAllReactions_concat_witness :
  exists a s',
    getAllReactions 2 tt Fixtures.s_all = Ok a s'
    /\ arrays s' !! a = Some ([0; 1] ++ [0; 1])
    /\ length (arrays Fixtures.s_all) <= a
    /\ extends Fixtures.s_all s' /\ user s' = user Fixtures.s_all.
Proof.
  apply (getAllReactions_concat 2 tt Fixtures.s_all
           (mkObject Fixtures.A (Some 1))
           0 Fixtures.s_all [0; 1] 1 Fixtures.s_all [0; 1]);
    reflexivity.
Defined.

(** [classAction.act()] of the test suite: the counter goes from 0 to 3. *)
Lemma act_local_effect_then_reactions_witness :
  exists s',
    act Fixtures.counting 4 2 tt Fixtures.p_three = Some (Ok tt s')
    /\ user s' = Fixtures.mkProbe (0 + 3) ([] ++ [2; 0; 1])
    /\ extends Fixtures.p_three s'.
Proof.
  apply (proj2 act_local_effect_then_reactions Fixtures.p_three 2
           (mkObject Fixtures.MyClassAction (Some 0)) 0 1 4).
  - apply wf_check_sound. reflexivity.
  - reflexivity.
  - reflexivity.
  - reflexivity.
  - exists (mkObject Fixtures.MyClassAction None). repeat split; reflexivity.
  - exists (mkObject Fixtures.MyClassAction None). repeat split; reflexivity.
  - lia.
Defined.

(** [classAction.doAction()] and [classAction.doReactions()] of the test
    suite: the counter goes from 0 to 1 and from 0 to 2. *)
Lemma doAction_local_doReactions_reactions_witness :
  doAction Fixtures.counting 2 tt Fixtures.p_three
  = Ok tt (set_user Fixtures.p_three (Fixtures.mkProbe 1 ([] ++ [2])))
  /\ exists s',
       doReactions Fixtures.counting 3 2 tt Fixtures.p_three = Some (Ok tt s')
       /\ user s' = Fixtures.mkProbe (0 + 2) ([] ++ [0; 1])
       /\ extends Fixtures.p_three s'.
Proof.
  destruct doAction_local_doReactions_reactions as (_ & Hlocal & Hreact).
  split.
  - apply (Hlocal Fixtures.p_three 2 (mkObject Fixtures.MyClassAction (Some 0)));
      reflexivity.
  - apply (Hreact Fixtures.p_three 2 [0; 1] 3).
    + apply wf_check_sound. reflexivity.
    + reflexivity.
    + repeat constructor;
        (exists (mkObject Fixtures.MyClassAction None); repeat split; reflexivity).
    + simpl. lia.
    + lia.
Defined.

(** A reaction that fails: of [[r1, failing, r3]] only [r1] has run, and
    [act] of the root fails with what the reaction raised. *)
Lemma failure_aborts_propagation_witness :
  exists s',
    act Fixtures.faulty 5 3 tt Fixtures.p_fail = Some (Throw (Raised 7) s')
    /\ user s' = Fixtures.mkProbe 2 [3; 0].
Proof.
  destruct (failure_aborts_propagation Fixtures.faulty faulty_frames tt)
    as [Hbase Hstep].
  pose (s := state_of (doAction Fixtures.faulty 3 tt Fixtures.p_fail)).
  pose (s1 := state_of (getAllReactions 3 tt s)).
  pose (sk := match act Fixtures.faulty 4 0 tt s1 with
              | Some r => state_of r
              | None => s1
              end).
  exists sk. split; [|reflexivity].
  apply (Hstep 4 3 s 2 s1 [0] 1 [2] sk (Raised 7) sk).
  - apply wf_check_sound. reflexivity.
  - reflexivity.
  - reflexivity.
  - simpl. lia.
  - reflexivity.
  - apply (Hbase 3 1 sk (Raised 7) sk). reflexivity.
  - reflexivity.
Defined.

(** Reactions that add to and remove from the sequence being propagated:
    [doReactions] still invokes the two that were there at the start. *)
Lemma doReactions_invokes_initial_sequence_witness :
  doReactions Fixtures.growing 3 2 tt Fixtures.p_three
  = act_each (fun reaction => act Fixtures.growing 3 reaction tt) [0; 1]
      (state_of (getAllReactions 2 tt Fixtures.p_three)).
Proof.
  apply (doReactions_invokes_initial_sequence Fixtures.growing
           growing_frames 3 2 tt Fixtures.p_three 2
           (state_of (getAllReactions 2 tt Fixtures.p_three)) [0; 1]).
  - apply wf_check_sound. reflexivity.
  - reflexivity.
  - reflexivity.
  - simpl. lia.
Defined.

(** * Further properties of [src/class-action.ts] *)

(** ** The mutators *)

Section MutatorFacts.
Context {U : Type}.
Implicit Types (s : state U) (o : object) (l : list ref) (a : aref).

Lemma set_arrays_id s a l :
  arrays s !! a = Some l -> set_arrays s (<[a := l]> (arrays s)) = s.
Proof.
  intros Ha. unfold set_arrays. rewrite list_insert_id by done. by destruct s.
Qed.

Lemma set_arrays_twice s a l l' :
  set_arrays (set_arrays s (<[a := l]> (arrays s)))
    (<[a := l']> (arrays (set_arrays s (<[a := l]> (arrays s)))))
  = set_arrays s (<[a := l']> (arrays s)).
Proof. unfold set_arrays. simpl. by rewrite list_insert_insert_eq. Qed.

Lemma splice_shrinks l start :
  (-1 <= start < Z.of_nat (length l))%Z ->
  length (splice l start 1) = pred (length l).
Proof.
  intros Hs. unfold splice.
  rewrite length_app, length_take, length_drop.
  destruct (Z.ltb_spec start 0); lia.
Qed.

Lemma indexOf_range l x : (-1 <= indexOf l x < Z.of_nat (length l) \/ l = [])%Z.
Proof.
  induction l as [|y l IH]; [by right|]. left. simpl.
  destruct (decide (y = x)); [lia|].
  destruct (Z.ltb_spec (indexOf l x) 0); [lia|].
  destruct IH as [IH| ->]; [lia|]. simpl in *. lia.
Qed.

Lemma splice_indexOf_length l x :
  length (splice l (indexOf l x) 1) = pred (length l).
Proof.
  destruct (indexOf_range l x) as [H| ->]; [|reflexivity].
  by apply splice_shrinks.
Qed.

Lemma splice_absent l x : x ∉ l -> splice l (indexOf l x) 1 = removelast l.
Proof.
  intros Hx. rewrite (indexOf_absent _ _ Hx).
  destruct (decide (l = [])) as [->|Hne]; [reflexivity|].
  destruct (exists_last Hne) as (l' & y & ->).
  by rewrite splice_absent_nonempty, removelast_last.
Qed.

(** X1: [removeReaction] takes exactly one element out of a non-empty own
    sequence whatever its argument is, and leaves an empty one empty; when
    the reference is absent, the element taken out is the last one. *)
Theorem removeReaction_always_shrinks s this o a l reaction :
  objs s !! this = Some o ->
  own_reactions o = Some a ->
  arrays s !! a = Some l ->
  exists l',
    removeReaction this reaction s
    = Ok tt (set_arrays s (<[a := l']> (arrays s)))
    /\ length l' = pred (length l)
    /\ (reaction ∉ l -> l' = removelast l).
Proof.
  intros Ho Hown Ha. exists (splice l (indexOf l reaction) 1).
  split; [by apply removeReaction_spliced with o|].
  split; [apply splice_indexOf_length|apply splice_absent].
Qed.

(** X3: two calls of [addReactions] in a row are one call with the
    arguments of both, in every store. *)
Theorem addReactions_compose s this rs1 rs2 :
  (addReactions this rs1 ;;; addReactions this rs2) s
  = addReactions this (rs1 ++ rs2) s.
Proof.
  destruct (objs s !! this) as [o|] eqn:Ho.
  2:{ unfold bind at 1. munfold. by rewrite Ho. }
  destruct (own_reactions o) as [a|] eqn:Hown.
  - destruct (arrays s !! a) as [l|] eqn:Ha.
    + unfold bind at 1.
      rewrite (addReactions_push _ _ _ _ _ _ Ho Hown Ha).
      rewrite (addReactions_push _ _ _ _ _ _ Ho Hown Ha).
      rewrite (addReactions_push _ this o a (l ++ rs1) rs2); try done.
      * by rewrite set_arrays_twice, app_assoc.
      * simpl. apply list_lookup_insert_eq. by eapply lookup_lt_Some.
    + unfold bind at 1. munfold. rewrite Ho, Hown. simpl.
      by rewrite Ho, Hown, Ha.
  - unfold bind at 1.
    rewrite !(addReactions_fresh _ _ _ _ Ho Hown).
    rewrite (addReactions_push _ this
               (mkObject (constructor_ o) (Some (length (arrays s))))
               (length (arrays s)) rs1 rs2).
    + unfold set_arrays. simpl. by rewrite insert_snoc_length.
    + simpl. apply list_lookup_insert_eq. by eapply lookup_lt_Some.
    + reflexivity.
    + simpl. apply lookup_snoc_length.
Qed.


Lemma touches_only_refl this s : touches_only this s s.
Proof. by repeat split. Qed.

Lemma touches_only_write this s o a l :
  objs s !! this = Some o ->
  own_reactions o = Some a ->
  touches_only this s (set_arrays s (<[a := l]> (arrays s))).
Proof.
  intros Ho Hown. repeat split; try done.
  intros a' l' Ha' Hother. simpl.
  rewrite list_lookup_insert_ne; [done|].
  intros ->. by apply (Hother o).
Qed.

Lemma touches_only_fresh this s o l :
  objs s !! this = Some o ->
  own_reactions o = None ->
  touches_only this s
    (mkState (statics s)
       (<[this := mkObject (constructor_ o) (Some (length (arrays s)))]> (objs s))
       (arrays s ++ [l]) (user s)).
Proof.
  intros Ho Hown. split; [done|]. split; [done|].
  split; [apply length_insert|]. split.
  - intros x ox Hx [Hne|Hsome]; simpl.
    + by rewrite list_lookup_insert_ne.
    + destruct (decide (x = this)) as [->|Hne].
      * rewrite Ho in Hx. injection Hx as <-. rewrite Hown in Hsome.
        by destruct Hsome.
      * by rewrite list_lookup_insert_ne.
  - intros a' l' Ha' _. simpl. by apply lookup_app_l_Some.
Qed.

Lemma addReactions_touches_only s this reactions :
  touches_only this s (state_of (addReactions this reactions s)).
Proof.
  destruct (objs s !! this) as [o|] eqn:Ho.
  2:{ munfold. rewrite Ho. apply touches_only_refl. }
  destruct (own_reactions o) as [a|] eqn:Hown.
  - destruct (arrays s !! a) as [l|] eqn:Ha.
    + rewrite (addReactions_push _ _ _ _ _ _ Ho Hown Ha).
      by apply (touches_only_write this s o).
    + munfold. rewrite Ho, Hown. simpl. rewrite Ho, Hown, Ha.
      apply touches_only_refl.
  - rewrite (addReactions_fresh _ _ _ _ Ho Hown).
    by apply touches_only_fresh.
Qed.

Lemma removeReaction_touches_only s this reaction :
  touches_only this s (state_of (removeReaction this reaction s)).
Proof.
  destruct (objs s !! this) as [o|] eqn:Ho.
  2:{ munfold. rewrite Ho. apply touches_only_refl. }
  destruct (own_reactions o) as [a|] eqn:Hown.
  - destruct (arrays s !! a) as [l|] eqn:Ha.
    + rewrite (removeReaction_spliced _ _ _ _ _ _ Ho Hown Ha).
      by apply (touches_only_write this s o).
    + munfold. rewrite Ho, Hown, Ha. apply touches_only_refl.
  - rewrite (removeReaction_no_sequence _ _ _ _ Ho Hown).
    apply touches_only_refl.
Qed.

(** X2: [addReactions] and [removeReaction] on [this] change no class and
    no data of the overriding code, create and delete no instance, leave
    every other instance as it is, leave [this] as it is when it has an
    own sequence (its array is written to, never replaced), and leave
    every array that [this] does not hold as it is. So the own sequence
    of an instance, and the type-level sequence of a class, change only
    if they are the very array that [this] holds. *)
Theorem mutators_keep_owned s this reactions reaction :
  touches_only this s (state_of (addReactions this reactions s))
  /\ touches_only this s (state_of (removeReaction this reaction s))
  /\ (forall s',
        touches_only this s s' ->
        (forall x ox ax l,
            objs s !! x = Some ox ->
            own_reactions ox = Some ax ->
            arrays s !! ax = Some l ->
            (forall o, objs s !! this = Some o -> own_reactions o <> Some ax) ->
            instance_list s' x = Some l)
        /\ (forall c ac l,
              lookup_static (statics s) c = Some ac ->
              arrays s !! ac = Some l ->
              (forall o, objs s !! this = Some o -> own_reactions o <> Some ac) ->
              class_list s' c = Some l)).
Proof.
  split; [apply addReactions_touches_only|].
  split; [apply removeReaction_touches_only|].
  intros s' (Hst & _ & _ & Hobjs & Harr). split.
  - intros x ox ax l Hx Hown Hax Hother. unfold instance_list.
    rewrite (Hobjs x ox Hx); [|right; by rewrite Hown].
    rewrite Hown. by apply Harr.
  - intros c ac l Hc Hac Hother. unfold class_list. rewrite Hst, Hc.
    by apply Harr.
Qed.
End MutatorFacts.

(** ** The accessors and the arrays they answer with *)

Section AccessorFacts.
Context {U C : Type}.
Implicit Types (s : state U) (o : object) (l : list ref) (a : aref)
  (context : C).

Lemma class_list_write_private s a l c :
  private a s ->
  class_list (set_arrays s (<[a := l]> (arrays s))) c = class_list s c.
Proof.
  intros (_ & _ & Hnc). unfold class_list. simpl.
  destruct (lookup_static (statics s) c) as [ac|] eqn:Hc; [|done].
  destruct (lookup_static_Some _ _ _ Hc) as [c' Hc'].
  apply list_lookup_insert_ne. intros ->. by apply (Hnc c').
Qed.

Lemma instance_list_write_private s a l x :
  private a s ->
  instance_list (set_arrays s (<[a := l]> (arrays s))) x = instance_list s x.
Proof.
  intros (_ & Hno & _). unfold instance_list. simpl.
  destruct (objs s !! x) as [o|] eqn:Ho; [|done].
  destruct (own_reactions o) as [ai|] eqn:Hown; [|done].
  apply list_lookup_insert_ne. intros ->. by apply (Hno x o).
Qed.

Lemma all_list_write_private s a l x :
  private a s ->
  all_list (set_arrays s (<[a := l]> (arrays s))) x = all_list s x.
Proof.
  intros Hp. unfold all_list.
  rewrite (instance_list_write_private s a l x Hp). simpl.
  destruct (objs s !! x) as [o|]; [|done].
  by rewrite (class_list_write_private s a l _ Hp).
Qed.


(** X5: the array [getAllReactions] answers with is a new one that no
    instance and no class holds, so whatever the caller writes to it
    changes the reactions of nothing. *)
Theorem getAllReactions_fresh this context s a s1 :
  wf s ->
  getAllReactions this context s = Ok a s1 ->
  length (arrays s) <= a
  /\ private a s1
  /\ forall l x,
       all_list (set_arrays s1 (<[a := l]> (arrays s1))) x = all_list s1 x.
Proof.
  intros Hwf Hrun.
  destruct (getAllReactions_private _ _ _ _ _ Hwf Hrun)
    as (Hp & _ & _ & l0 & Hall & _).
  destruct (getAllReactions_run this context s l0 Hall)
    as (a' & s1' & Hrun' & _ & _ & _ & Hfresh).
  rewrite Hrun in Hrun'. injection Hrun' as <- <-.
  split; [lia|]. split; [done|].
  intros l x. by apply all_list_write_private.
Qed.

(** X6: [getReactions] answers with the own array of the instance
    itself and leaves the store as it is, so writing to the answer changes
    the instance's reactions; without an own array the answer is a new
    array, which is empty, the arrays that existed, the instances and the
    classes are as they were, the instance still has no own sequence, and
    writing to the answer does not change its reactions. *)
Theorem getReactions_alias this context s o :
  objs s !! this = Some o ->
  (forall a,
      own_reactions o = Some a -> a < length (arrays s) ->
      getReactions this context s = Ok a s
      /\ forall l,
           instance_list (set_arrays s (<[a := l]> (arrays s))) this = Some l)
  /\ (own_reactions o = None ->
      exists a s',
        getReactions this context s = Ok a s'
        /\ length (arrays s) <= a
        /\ arrays s' !! a = Some []
        /\ (forall a' l', arrays s !! a' = Some l' -> arrays s' !! a' = Some l')
        /\ objs s' = objs s /\ statics s' = statics s
        /\ forall l,
             instance_list (set_arrays s' (<[a := l]> (arrays s'))) this
             = Some []).
Proof.
  intros Ho. split.
  - intros a Hown Hlt. split.
    + munfold. by rewrite Ho, Hown.
    + intros l. unfold instance_list. simpl. rewrite Ho, Hown.
      by apply list_lookup_insert_eq.
  - intros Hown.
    exists (length (arrays s)), (set_arrays s (arrays s ++ [[]])).
    split; [munfold; by rewrite Ho, Hown|]. split; [lia|].
    split; [apply lookup_snoc_length|].
    split; [intros a' l' Ha'; simpl; by apply lookup_app_l_Some|].
    split; [done|]. split; [done|].
    intros l. unfold instance_list. simpl. by rewrite Ho, Hown.
Qed.

End AccessorFacts.

(** ** Propagation without reactions, and on a cycle *)

Section PropagationEdges.
Context {U C : Type}.
Variable overrides : classid -> option (behaviour U C).
Implicit Types (s : state U) (o : object) (l : list ref) (a : aref)
  (context : C) (body : ref -> state U -> option (result U unit)).

Lemma for_of_step fuel body a i s l r :
  arrays s !! a = Some l ->
  l !! i = Some r ->
  for_of (S fuel) body a i s
  = match body r s with
    | Some (Ok _ s') => for_of fuel body a (S i) s'
    | Some (Throw e s') => Some (Throw e s')
    | None => None
    end.
Proof. intros Ha Hi. simpl. by rewrite Ha, Hi. Qed.

(** X8: on an instance that has no reaction, of its class or of its own,
    [act] is [doAction]: it completes with what [doAction] left, but for
    the arrays the accessors allocated. *)
Theorem act_without_reactions n this context s s1 :
  doAction overrides this context s = Ok tt s1 ->
  all_list s1 this = Some [] ->
  exists s2,
    act overrides (S (S n)) this context s = Some (Ok tt s2)
    /\ extends s1 s2 /\ user s2 = user s1.
Proof.
  intros Hd Hall.
  destruct (getAllReactions_run this context s1 [] Hall)
    as (a & s2 & Hrun & Hext & Hu & Ha & _).
  exists s2. split; [|done].
  rewrite act_unfold, Hd. unfold doReactions, doReactions_with.
  rewrite Hrun. simpl. by rewrite Ha.
Qed.

(** X9: an instance with the empty [doAction] of [ClassAction] that is
    the first of its own reactions: [act] on it does not return. Whatever
    bound is put on the recursion, [act] is still calling itself on the
    same instance when the bound is reached; the code has no guard
    against the cycle. (An engine ends such a call with the error of its
    own call stack limit, which is not part of the code.) *)
Theorem act_self_reaction_diverges this context l fuel :
  forall s o,
    objs s !! this = Some o ->
    resolve_doAction overrides (constructor_ o) = base_doAction ->
    all_list s this = Some (this :: l) ->
    act overrides fuel this context s = None.
Proof.
  induction fuel as [|n IH]; intros s o Ho Hbase Hall; [reflexivity|].
  rewrite act_unfold, (doAction_resolved _ _ _ _ _ Ho), Hbase.
  unfold base_doAction, ret.
  destruct (getAllReactions_run this context s _ Hall)
    as (a & s1 & Hrun & Hext & _ & Ha & _).
  unfold doReactions, doReactions_with. rewrite Hrun.
  destruct n as [|m]; [reflexivity|].
  rewrite (for_of_step m _ a 0 s1 (this :: l) this Ha eq_refl).
  rewrite (IH s1 o); [done| |done|by eapply all_list_extends].
  destruct Hext as (_ & -> & _). done.
Qed.
End PropagationEdges.

(** ** Depth-first order *)

Section DepthFirst.
Import Fixtures.
Implicit Types (s : state probe) (t : rtree) (ts : list rtree).

Lemma need_pos t : 1 <= need t.
Proof. destruct t. simpl. lia. Qed.

Lemma need_children n r ts :
  need (Node r ts) <= S n ->
  length ts < n /\ Forall (fun t => need t <= n) ts.
Proof.
  simpl. intros Hn. split; [lia|].
  apply Forall_forall. intros t Ht.
  assert (need t <= max_list (List.map need ts)); [|lia].
  apply max_list_elem_of_le. apply list_elem_of_In, in_map.
  by apply list_elem_of_In.
Qed.

Lemma unfolds_extends_bounded n :
  forall t s s',
    need t <= n -> extends s s' -> unfolds s t -> unfolds s' t.
Proof.
  induction n as [|n IH]; intros t s s' Hn Hext Hunf.
  { pose proof (need_pos t). lia. }
  destruct t as [r ts]. inversion Hunf as [r' ts' o Ho Hc Hall HF]. subst.
  destruct (need_children _ _ _ Hn) as [_ Hneeds].
  apply (unfolds_node s' r ts o); [|done|by eapply all_list_extends|].
  - destruct Hext as (_ & -> & _). done.
  - rewrite Forall_forall in HF, Hneeds. apply Forall_forall.
    intros t Ht. apply (IH t s s'); auto.
Qed.

Lemma unfolds_extends t s s' : extends s s' -> unfolds s t -> unfolds s' t.
Proof. by apply (unfolds_extends_bounded (need t)). Qed.

Lemma advanced_app l1 l2 u :
  advanced l2 (advanced l1 u) = advanced (l1 ++ l2) u.
Proof.
  unfold advanced. simpl. rewrite length_app, app_assoc. f_equal. lia.
Qed.

Lemma advanced_one r u : advanced [r] u = bumped r u.
Proof. unfold advanced, bumped. simpl. f_equal. lia. Qed.

Lemma act_each_trees n :
  (forall t s,
      wf s -> unfolds s t -> need t <= n ->
      exists s',
        act counting n (root t) tt s = Some (Ok tt s')
        /\ user s' = advanced (preorder t) (user s) /\ extends s s') ->
  forall ts s,
    wf s -> Forall (unfolds s) ts -> Forall (fun t => need t <= n) ts ->
    exists s',
      act_each (fun reaction => act counting n reaction tt)
        (List.map root ts) s = Some (Ok tt s')
      /\ user s' = advanced (concat (List.map preorder ts)) (user s)
      /\ extends s s'.
Proof.
  intros Hact. induction ts as [|t ts IH]; intros s Hwf HF Hn; simpl.
  - exists s. split; [done|]. split; [|apply extends_refl].
    unfold advanced. simpl. rewrite Nat.add_0_r, app_nil_r. by destruct (user s).
  - apply Forall_cons in HF as [Ht HF]. apply Forall_cons in Hn as [Hnt Hn].
    destruct (Hact t s Hwf Ht Hnt) as (s1 & -> & Hu1 & He1).
    destruct (IH s1) as (s2 & Hrun & Hu2 & He2); [by eapply extends_wf| |done|].
    { eapply Forall_impl; [by apply HF|]. intros x. by apply unfolds_extends. }
    exists s2. split; [done|]. split; [|by apply (extends_trans s s1 s2)].
    by rewrite Hu2, Hu1, advanced_app.
Qed.

(** X10: propagation is depth first. On a store that unfolds to the tree
    [t] of counting instances, [act] on the root completes, given a
    recursion bound of [need t], and the [doAction] bodies have run once
    per node of [t], each parent before its reactions and each reaction
    with all its descendants before the next one. *)
Theorem act_depth_first fuel :
  forall t s,
    wf s -> unfolds s t -> need t <= fuel ->
    exists s',
      act counting fuel (root t) tt s = Some (Ok tt s')
      /\ user s' = advanced (preorder t) (user s)
      /\ extends s s'.
Proof.
  induction fuel as [|n IH]; intros t s Hwf Hunf Hn.
  { pose proof (need_pos t). lia. }
  destruct t as [r ts]. inversion Hunf as [r' ts' o Ho Hc Hall HF]. subst.
  destruct (need_children _ _ _ Hn) as [Hlen Hneeds].
  simpl root. rewrite act_unfold, (doAction_counting _ _ _ Ho Hc).
  set (s1 := set_user s (bumped r (user s))).
  assert (extends s s1) as He1 by apply extends_set_user.
  assert (wf s1) as Hwf1 by (by eapply extends_wf).
  pose proof (all_list_extends _ _ _ _ He1 Hall) as Hall1.
  destruct (getAllReactions_run r tt s1 _ Hall1)
    as (a & s2 & Hrun & He2 & Hu2 & Ha & _).
  rewrite (doReactions_snapshot counting counting_frames
             n r tt s1 a s2 _ Hwf1 Hrun Ha) by (by rewrite length_map).
  destruct (act_each_trees n IH ts s2) as (s3 & Hrun3 & Hu3 & He3);
    [by eapply extends_wf| |done|].
  { eapply Forall_impl; [by apply HF|]. intros x Hx.
    apply (unfolds_extends x s1 s2 He2), (unfolds_extends x s s1 He1), Hx. }
  exists s3. split; [done|]. split.
  - rewrite Hu3, Hu2. unfold s1. simpl.
    by rewrite <- (advanced_one r (user s)), advanced_app.
  - apply (extends_trans s s1 s3); [done|]. by apply (extends_trans s1 s2 s3).
Qed.
End DepthFirst.

(** * Properties of the build with [removeReactions] *)

Section VariantFacts.
Context {U C : Type}.
Implicit Types (s : state U) (o : object) (l : list ref) (a : aref)
  (context : C).

Lemma spliced_all_length reactions :
  forall l,
    length (Variant.spliced_all l reactions) = length l - length reactions.
Proof.
  unfold Variant.spliced_all.
  induction reactions as [|r rs IH]; intros l; simpl; [lia|].
  rewrite IH, splice_indexOf_length. lia.
Qed.


Lemma removeReactions_loop_run this o a reactions :
  own_reactions o = Some a ->
  forall s l,
    objs s !! this = Some o ->
    arrays s !! a = Some l ->
    Variant.removeReactions_loop this reactions s
    = Ok tt (set_arrays s (<[a := Variant.spliced_all l reactions]> (arrays s))).
Proof.
  intros Hown. induction reactions as [|r rs IH]; intros s l Ho Ha.
  - simpl. unfold ret. by rewrite set_arrays_id.
  - simpl. unfold bind at 1, Variant.removeReactions_step. munfold.
    rewrite Ho, Hown, Ha.
    rewrite (IH _ (splice l (indexOf l r) 1)); [|done|].
    + by rewrite set_arrays_twice.
    + simpl. apply list_lookup_insert_eq. by eapply lookup_lt_Some.
Qed.

(** X11: [removeReactions] takes one element out of the own sequence per
    argument, present or not, until the sequence is empty: the sequence
    loses as many elements as there are arguments, or all it has. *)
Theorem variant_removeReactions_shrinks s this o a l reactions :
  objs s !! this = Some o ->
  own_reactions o = Some a ->
  arrays s !! a = Some l ->
  exists l',
    Variant.removeReactions this reactions s
    = Ok tt (set_arrays s (<[a := l']> (arrays s)))
    /\ length l' = length l - length reactions.
Proof.
  intros Ho Hown Ha. exists (Variant.spliced_all l reactions).
  split; [|apply spliced_all_length].
  unfold Variant.removeReactions, bind, get_object. rewrite Ho, Hown.
  by apply (removeReactions_loop_run this o a).
Qed.


(** X13: the static accessor of this build against the one of
    [class-action.ts]. For a class that owns a sequence both answer with
    it; for a class that owns none this build answers with a new empty
    sequence, where [class-action.ts] answers with the sequence of the
    nearest superclass that owns one. *)
Theorem variant_static_getReactions_own_only cls context s :
  (forall a,
      statics s !! cls = Some a ->
      Variant.static_getReactions cls context s = Ok a s
      /\ static_getReactions cls context s = Ok a s)
  /\ (statics s !! cls = None ->
      Variant.static_getReactions cls context s
      = Ok (length (arrays s)) (set_arrays s (arrays s ++ [[]]))
      /\ forall k a,
           k <= length cls ->
           statics s !! drop k cls = Some a ->
           (forall j, j < k -> statics s !! drop j cls = None) ->
           static_getReactions cls context s = Ok a s).
Proof.
  split.
  - intros a Ha. split.
    + unfold Variant.static_getReactions. by rewrite Ha.
    + unfold static_getReactions.
      rewrite (lookup_static_nearest (statics s) cls 0 a); [done|lia|done|lia].
  - intros Hnone. split.
    + unfold Variant.static_getReactions. by rewrite Hnone.
    + intros k a Hk Ha Hbelow. unfold static_getReactions.
      by rewrite (lookup_static_nearest (statics s) cls k a).
Qed.
End VariantFacts.

(** * The further properties on the scenarios *)

(** Removing a reference that [[reaction1, reaction2]] does not hold. *)
Lemma removeReaction_always_shrinks_witness :
  exists l',
    removeReaction 2 7 Fixtures.s_two
    = Ok tt (set_arrays Fixtures.s_two (<[0 := l']> (arrays Fixtures.s_two)))
    /\ length l' = pred (length [0; 1])
    /\ (7 ∉ [0; 1] -> l' = removelast [0; 1]).
Proof.
  apply (removeReaction_always_shrinks Fixtures.s_two 2
           (mkObject ClassAction (Some 0)) 0 [0; 1] 7); reflexivity.
Defined.


(** The array answered for the instance of [A] is array 2, a new one. *)
Lemma getAllReactions_fresh_witness :
  length (arrays Fixtures.s_all) <= 2
  /\ private 2 (state_of (getAllReactions 2 tt Fixtures.s_all))
  /\ forall l x,
       all_list
         (set_arrays (state_of (getAllReactions 2 tt Fixtures.s_all))
            (<[2 := l]> (arrays (state_of (getAllReactions 2 tt Fixtures.s_all)))))
         x
       = all_list (state_of (getAllReactions 2 tt Fixtures.s_all)) x.
Proof.
  apply (getAllReactions_fresh 2 tt Fixtures.s_all 2
           (state_of (getAllReactions 2 tt Fixtures.s_all))).
  - apply wf_check_sound. reflexivity.
  - reflexivity.
Defined.

(** [getReactions()] of [classAction], which holds array 0, and of
    [reaction1], which holds none. *)
Lemma getReactions_alias_witness :
  (getReactions 2 tt Fixtures.s_two = Ok 0 Fixtures.s_two
   /\ forall l,
        instance_list
          (set_arrays Fixtures.s_two (<[0 := l]> (arrays Fixtures.s_two))) 2
        = Some l)
  /\ exists a s',
       getReactions 0 tt Fixtures.s_two = Ok a s'
       /\ length (arrays Fixtures.s_two) <= a
       /\ arrays s' !! a = Some []
       /\ (forall a' l',
             arrays Fixtures.s_two !! a' = Some l' -> arrays s' !! a' = Some l')
       /\ objs s' = objs Fixtures.s_two /\ statics s' = statics Fixtures.s_two
       /\ forall l,
            instance_list (set_arrays s' (<[a := l]> (arrays s'))) 0 = Some [].
Proof.
  split.
  - apply (proj1 (getReactions_alias 2 tt Fixtures.s_two
                    (mkObject ClassAction (Some 0)) eq_refl) 0 eq_refl).
    simpl. lia.
  - apply (proj2 (getReactions_alias 0 tt Fixtures.s_two
                    (mkObject ClassAction None) eq_refl) eq_refl).
Defined.


(** [act] on [reaction1] of the counting scenario, which has no reaction. *)
Lemma act_without_reactions_witness :
  exists s2,
    act Fixtures.counting 2 0 tt Fixtures.p_three = Some (Ok tt s2)
    /\ extends (state_of (doAction Fixtures.counting 0 tt Fixtures.p_three)) s2
    /\ user s2
       = user (state_of (doAction Fixtures.counting 0 tt Fixtures.p_three)).
Proof.
  apply (act_without_reactions Fixtures.counting 0 0 tt Fixtures.p_three
           (state_of (doAction Fixtures.counting 0 tt Fixtures.p_three)));
    reflexivity.
Defined.

(** [a.addReactions(a); a.act()] does not complete within 10 levels. *)
Lemma act_self_reaction_diverges_witness :
  act (fun _ : classid => @None (behaviour nat unit)) 10 0 tt Fixtures.s_self
  = None.
Proof.
  apply (act_self_reaction_diverges _ 0 tt [] 10 Fixtures.s_self
           (mkObject ClassAction (Some 0))); reflexivity.
Defined.

(** The nested scenario: [root] runs, then [b] and its reaction [a],
    then [c]. *)
Lemma act_depth_first_witness :
  exists s',
    act Fixtures.counting 4 3 tt Fixtures.p_nested = Some (Ok tt s')
    /\ user s' = Fixtures.mkProbe (0 + 4) ([] ++ [3; 1; 0; 2])
    /\ extends Fixtures.p_nested s'.
Proof.
  apply (act_depth_first 4 (Node 3 [Node 1 [Node 0 []]; Node 2 []])
           Fixtures.p_nested).
  - apply wf_check_sound. reflexivity.
  - apply (unfolds_node _ 3 _ (mkObject Fixtures.MyClassAction (Some 1)));
      try reflexivity.
    repeat constructor.
    + apply (unfolds_node _ 1 _ (mkObject Fixtures.MyClassAction (Some 0)));
        try reflexivity.
      repeat constructor.
      apply (unfolds_node _ 0 _ (mkObject Fixtures.MyClassAction None));
        try reflexivity.
      constructor.
    + apply (unfolds_node _ 2 _ (mkObject Fixtures.MyClassAction None));
        try reflexivity.
      constructor.
  - simpl. lia.
Defined.

(** [removeReactions(reaction2, 7, 8)] on [[reaction1, reaction2]]: three
    arguments, two elements. *)
Lemma variant_removeReactions_shrinks_witness :
  exists l',
    Variant.removeReactions 2 [1; 7; 8] Fixtures.s_two
    = Ok tt (set_arrays Fixtures.s_two (<[0 := l']> (arrays Fixtures.s_two)))
    /\ length l' = length [0; 1] - length [1; 7; 8].
Proof.
  apply (variant_removeReactions_shrinks Fixtures.s_two 2
           (mkObject ClassAction (Some 0)) 0 [0; 1] [1; 7; 8]); reflexivity.
Defined.


(** [A] owns its sequence; [B] owns none and inherits it in
    [class-action.ts] only. *)
Lemma variant_static_getReactions_own_only_witness :
  (Variant.static_getReactions Fixtures.A tt Fixtures.s_static
   = Ok 0 Fixtures.s_static
   /\ static_getReactions Fixtures.A tt Fixtures.s_static
      = Ok 0 Fixtures.s_static)
  /\ Variant.static_getReactions Fixtures.B tt Fixtures.s_static
     = Ok 1 (set_arrays Fixtures.s_static (arrays Fixtures.s_static ++ [[]]))
  /\ static_getReactions Fixtures.B tt Fixtures.s_static
     = Ok 0 Fixtures.s_static.
Proof.
  destruct (variant_static_getReactions_own_only Fixtures.A tt Fixtures.s_static)
    as [HA _].
  destruct (variant_static_getReactions_own_only Fixtures.B tt Fixtures.s_static)
    as [_ HB].
  split; [exact (HA 0 eq_refl)|].
  destruct (HB eq_refl) as [HB1 HB2].
  split; [exact HB1|].
  apply (HB2 1 0); [simpl; lia|reflexivity|].
  intros j Hj. assert (j = 0) as -> by lia. reflexivity.
Defined.

(** [reaction1.addReactions(7)] and [reaction1.removeReaction(7)] leave
    the sequence of [classAction] as it is. *)
Lemma mutators_keep_owned_witness :
  instance_list (state_of (addReactions 0 [7] Fixtures.s_two)) 2 = Some [0; 1]
  /\ instance_list (state_of (removeReaction 0 7 Fixtures.s_two)) 2
     = Some [0; 1].
Proof.
  destruct (mutators_keep_owned Fixtures.s_two 0 [7] 7) as (Hadd & Hrem & Hkeep).
  assert (forall o, objs Fixtures.s_two !! 0 = Some o -> own_reactions o <> Some 0)
    as Hother.
  { intros o Ho. injection Ho as <-. discriminate. }
  split.
  - apply (proj1 (Hkeep _ Hadd) 2 (mkObject ClassAction (Some 0)) 0 [0; 1]);
      [reflexivity|reflexivity|reflexivity|exact Hother].
  - apply (proj1 (Hkeep _ Hrem) 2 (mkObject ClassAction (Some 0)) 0 [0; 1]);
      [reflexivity|reflexivity|reflexivity|exact Hother].
Defined.
